(** * biomart-mcp: a shallow embedding of [biomart-mcp.py]

    The server exposes seven tools over a remote BioMart catalog.  The
    remote service (pybiomart), the standard error stream and the clock
    are external; they are modelled by an oracle ([World]) and by an
    explicit [State] that records every remote interaction, every line
    written to [sys.stderr] and every [time.sleep].  The two
    [functools.lru_cache] decorators are modelled by recency-ordered
    association lists held in the state. *)

From Stdlib Require Import Ascii String DecimalString.
From stdpp Require Import base list strings gmap.

Local Open Scope char_scope.

(** ** Characters and strings *)

Definition comma : ascii := ",".
Definition dquote : ascii := "034".
Definition squote : ascii := "039".
Definition CR : ascii := "013".
Definition LF : ascii := "010".

Local Close Scope char_scope.

Definition str1 (c : ascii) : string := String c EmptyString.

(** [str(n)] for a non-negative integer. *)
Definition str_of_nat (n : nat) : string :=
  NilZero.string_of_uint (Nat.to_uint n).

(** [c in s] for a one-character [c]. *)
Fixpoint mem_char (c : ascii) (s : string) : bool :=
  match s with
  | EmptyString => false
  | String d s' => Ascii.eqb c d || mem_char c s'
  end.

(** [str.replace] of a carriage return by the empty string: every
    carriage return is dropped. *)
Fixpoint remove_cr (s : string) : string :=
  match s with
  | EmptyString => EmptyString
  | String c s' => if Ascii.eqb c CR then remove_cr s' else String c (remove_cr s')
  end.

(** [s.startswith(p)] *)
Fixpoint startswith (p s : string) : bool :=
  match p with
  | EmptyString => true
  | String a p' =>
      match s with
      | EmptyString => false
      | String b s' => Ascii.eqb a b && startswith p' s'
      end
  end.

(** [sub in s]: substring test.  The four patterns handed to
    [Series.str.contains] hold no regular-expression metacharacter, so
    the regex search of pandas is a plain substring search. *)
Fixpoint contains_at (sub s : string) : bool :=
  startswith sub s ||
  match s with
  | EmptyString => false
  | String _ s' => contains_at sub s'
  end.

Definition contains (sub s : string) : bool := contains_at sub s.

(** ** Module constants *)

Definition DEFAULT_HOST : string := "http://www.ensembl.org".
Definition MAX_RETRIES : nat := 3.
Definition RETRY_DELAY : nat := 2.

Definition COMMON_ATTRIBUTES : list string :=
  [ "ensembl_gene_id"; "external_gene_name"; "hgnc_symbol"; "hgnc_id";
    "gene_biotype"; "ensembl_transcript_id"; "ensembl_peptide_id";
    "ensembl_exon_id"; "description"; "chromosome_name"; "start_position";
    "end_position"; "strand"; "band"; "transcript_start"; "transcript_end";
    "transcription_start_site"; "transcript_length" ].

(** The substrings filtered out by [list_all_attributes], in source order. *)
Definition EXCLUDED_SUBSTRINGS : list string :=
  [ "_homolog_"; "dbass"; "affy_"; "agilent_" ].

(** ** Tables *)

(** A pandas [DataFrame] whose cells are strings: the column labels and
    the records in order. *)
Record DataFrame := mkDataFrame {
  columns : list string;
  rows : list (list string)
}.

(** ** The CSV writer behind [DataFrame.to_csv(index=False)]

    pandas hands the header and then every record to [csv.writer] with
    the default dialect: comma as delimiter, the double quote as quote
    character, minimal quoting, doubled quotes, and [os.linesep] as
    line terminator.  A field is quoted when it holds the delimiter,
    the quote character or a character of the line terminator; a record
    made of one empty field is written as a pair of quotes. *)

Fixpoint needs_quote (lineterminator field : string) : bool :=
  match field with
  | EmptyString => false
  | String c f =>
      Ascii.eqb c comma || Ascii.eqb c dquote || mem_char c lineterminator
      || needs_quote lineterminator f
  end.

Fixpoint double_quotes (field : string) : string :=
  match field with
  | EmptyString => EmptyString
  | String c f =>
      if Ascii.eqb c dquote then String dquote (String dquote (double_quotes f))
      else String c (double_quotes f)
  end.

Definition write_field (lineterminator field : string) : string :=
  if needs_quote lineterminator field
  then String dquote (double_quotes field +:+ str1 dquote)
  else field.

Fixpoint join_fields (fields : list string) : string :=
  match fields with
  | [] => EmptyString
  | [f] => f
  | f :: fs => f +:+ String comma (join_fields fs)
  end.

Definition write_row (lineterminator : string) (record : list string) : string :=
  match record with
  | [EmptyString] => String dquote (String dquote lineterminator)
  | _ => join_fields (map (write_field lineterminator) record) +:+ lineterminator
  end.

Fixpoint write_rows (lineterminator : string) (records : list (list string)) : string :=
  match records with
  | [] => EmptyString
  | r :: rs => write_row lineterminator r +:+ write_rows lineterminator rs
  end.

Definition to_csv (lineterminator : string) (df : DataFrame) : string :=
  write_rows lineterminator (columns df :: rows df).

(** [to_csv(index=False)] followed by the removal of carriage returns:
    the text every listing and query tool returns. *)
Definition normalize (lineterminator : string) (df : DataFrame) : string :=
  remove_cr (to_csv lineterminator df).

(** ** Outcomes of a call *)

(** A call returns a value or raises an [Exception]; of the exception
    only [str(e)] is ever used. *)
Inductive result (A : Type) : Type :=
| Ok (a : A)
| Raise (msg : string).
Arguments Ok {A} a.
Arguments Raise {A} msg.

(** ** The remote service *)

(** A [pybiomart.Server] handle: the host it was built for and the
    instant it was built at (its identity). *)
Record Server := mkServer {
  server_host : string;
  server_born : nat
}.

#[export] Instance Server_eq_dec : EqDecision Server.
Proof. solve_decision. Defined.

(** The remote service and the platform.  Every answer may depend on
    the instant [t] it is asked at, so failures can be transient.  An
    answer [Raise msg] stands for any exception raised along the call
    chain (unknown mart or dataset, network fault, rejected query). *)
Record World := mkWorld {
  os_linesep : string;
  connect : nat -> string -> result unit;
  remote_list_marts : nat -> result DataFrame;
  remote_list_datasets : nat -> string -> result DataFrame;
  remote_list_attributes : nat -> string -> string -> result DataFrame;
  remote_list_filters : nat -> string -> string -> result DataFrame;
  remote_query :
    nat -> string -> string -> list string -> gmap string string -> result DataFrame
}.

(** ** Observable events *)

Inductive event : Type :=
| EvConnect (host : string)
| EvListMarts
| EvListDatasets (mart : string)
| EvListAttributes (mart dataset : string)
| EvListFilters (mart dataset : string)
| EvQuery (mart dataset : string) (attributes : list string)
          (filters : gmap string string)
| EvSleep (seconds : nat)
| EvStderr (line : string).

Definition is_connect (e : event) : bool :=
  match e with EvConnect _ => true | _ => false end.
Definition is_query (e : event) : bool :=
  match e with EvQuery _ _ _ _ => true | _ => false end.
(** The lines written to [sys.stderr], oldest first. *)
Fixpoint stderr_lines (tr : list event) : list string :=
  match tr with
  | [] => []
  | EvStderr l :: tr' => l :: stderr_lines tr'
  | _ :: tr' => stderr_lines tr'
  end.

(** The arguments of the [time.sleep] calls, oldest first. *)
Fixpoint sleeps (tr : list event) : list nat :=
  match tr with
  | [] => []
  | EvSleep n :: tr' => n :: sleeps tr'
  | _ :: tr' => sleeps tr'
  end.

Definition count_queries (tr : list event) : nat :=
  length (filter (fun e => is_query e = true) tr).
Definition count_connects (tr : list event) : nat :=
  length (filter (fun e => is_connect e = true) tr).

(** ** Program state *)

(** The key [functools.lru_cache] builds for [get_translation]: all five
    positional arguments, in order. *)
Definition TKey : Type := string * string * string * string * string.

(** [clock] counts the remote interactions made so far, [trace] is the
    chronological record of events; the two caches are the stores of the
    [lru_cache] decorators of [get_server] and [get_translation], most
    recently used entry first. *)
Record State := mkState {
  clock : nat;
  trace : list event;
  server_cache : list (unit * Server);
  translation_cache : list (TKey * string)
}.

Definition initial_state : State := mkState 0 [] [] [].

Definition set_server_cache (c : list (unit * Server)) (st : State) : State :=
  mkState (clock st) (trace st) c (translation_cache st).
Definition set_translation_cache (c : list (TKey * string)) (st : State) : State :=
  mkState (clock st) (trace st) (server_cache st) c.

(** ** A state-and-exception monad *)

Definition M (A : Type) : Type := State -> State * result A.

Definition ret {A} (a : A) : M A := fun st => (st, Ok a).
Definition raise {A} (msg : string) : M A := fun st => (st, Raise msg).
Definition bind {A B} (m : M A) (k : A -> M B) : M B :=
  fun st =>
    match m st with
    | (st', Ok a) => k a st'
    | (st', Raise msg) => (st', Raise msg)
    end.

(** [try: body / except Exception as e: handler(str(e))]. *)
Definition try_except {A} (body : M A) (handler : string -> M A) : M A :=
  fun st =>
    match body st with
    | (st', Ok a) => (st', Ok a)
    | (st', Raise msg) => handler msg st'
    end.

Definition lift {A} (r : result A) : M A := fun st => (st, r).

Declare Scope py_scope.
Delimit Scope py_scope with py.
Notation "'let!' x ':=' m 'in' k" := (bind m (fun x => k))
  (at level 10, x name, m at level 100, k at level 200, only parsing) : py_scope.
Notation "m '>>' k" := (bind m (fun _ => k))
  (at level 100, k at level 200, only parsing, right associativity) : py_scope.
Local Open Scope py_scope.

Definition emit (e : event) : M unit :=
  fun st =>
    (mkState (clock st) (trace st ++ [e]) (server_cache st) (translation_cache st),
     Ok tt).

(** [print(line, file=sys.stderr)] *)
Definition print_stderr (line : string) : M unit := emit (EvStderr line).
(** [time.sleep(seconds)] *)
Definition sleep (seconds : nat) : M unit := emit (EvSleep seconds).

(** One interaction with the remote service: it is recorded, the
    interaction counter advances, and the world answers. *)
Definition remote {A} (e : event) (answer : nat -> result A) : M A :=
  fun st =>
    (mkState (S (clock st)) (trace st ++ [e]) (server_cache st) (translation_cache st),
     answer (clock st)).

(** ** [functools.lru_cache] *)

Section lru.
Context {K V : Type} `{EqDecision K}.

Fixpoint lru_get (k : K) (c : list (K * V)) : option V :=
  match c with
  | [] => None
  | (k', v) :: c' => if decide (k = k') then Some v else lru_get k c'
  end.

Fixpoint lru_remove (k : K) (c : list (K * V)) : list (K * V) :=
  match c with
  | [] => []
  | (k', v) :: c' =>
      if decide (k = k') then lru_remove k c' else (k', v) :: lru_remove k c'
  end.

(** A hit moves the entry to the most-recent end. *)
Definition lru_hit (k : K) (v : V) (c : list (K * V)) : list (K * V) :=
  (k, v) :: lru_remove k c.

(** A miss stores the new entry; when the cache is full the least
    recently used entry is dropped. *)
Definition lru_put (maxsize : nat) (k : K) (v : V) (c : list (K * V))
  : list (K * V) :=
  take maxsize ((k, v) :: c).

(** The wrapper [lru_cache(maxsize)(f)]: a stored result is returned
    without running [f]; a result [f] returns is stored; an exception
    [f] raises goes through and nothing is stored. *)
Definition lru_cache (maxsize : nat)
    (get : State -> list (K * V)) (set : list (K * V) -> State -> State)
    (f : K -> M V) : K -> M V :=
  fun k st =>
    match lru_get k (get st) with
    | Some v => (set (lru_hit k v (get st)) st, Ok v)
    | None =>
        match f k st with
        | (st', Ok v) => (set (lru_put maxsize k v (get st')) st', Ok v)
        | (st', Raise msg) => (st', Raise msg)
        end
    end.

(** The store after one call with key [k'], whose body (run on a miss)
    returned [v']. *)
Definition lru_step (maxsize : nat) (k' : K) (v' : V) (c : list (K * V))
  : list (K * V) :=
  match lru_get k' c with
  | Some v => lru_hit k' v c
  | None => lru_put maxsize k' v' c
  end.

(** [held k v seen c]: the store [c] holds [k] with value [v], and the
    entries used more recently than [k] have pairwise different keys
    drawn from [seen]. *)
Definition held (k : K) (v : V) (seen : list K) (c : list (K * V)) : Prop :=
  exists pre post : list (K * V),
    c = pre ++ (k, v) :: post /\ (k ∉ pre.*1) /\ NoDup pre.*1 /\
    forall x, x ∈ pre.*1 -> x ∈ seen.
End lru.

(** ** pybiomart calls *)

(** [pybiomart.Server(host=host)] *)
Definition new_server (w : World) (host : string) : M Server :=
  fun st =>
    match remote (EvConnect host) (fun t => connect w t host) st with
    | (st', Ok _) => (st', Ok (mkServer host (clock st)))
    | (st', Raise msg) => (st', Raise msg)
    end.

(** [server.list_marts()] *)
Definition server_list_marts (w : World) (server : Server) : M DataFrame :=
  remote EvListMarts (remote_list_marts w).

(** [server[mart].list_datasets()] *)
Definition server_list_datasets (w : World) (server : Server) (mart : string)
  : M DataFrame :=
  remote (EvListDatasets mart) (fun t => remote_list_datasets w t mart).

(** [server[mart][dataset].list_attributes()] *)
Definition server_list_attributes (w : World) (server : Server)
    (mart dataset : string) : M DataFrame :=
  remote (EvListAttributes mart dataset)
         (fun t => remote_list_attributes w t mart dataset).

(** [server[mart][dataset].list_filters()] *)
Definition server_list_filters (w : World) (server : Server)
    (mart dataset : string) : M DataFrame :=
  remote (EvListFilters mart dataset)
         (fun t => remote_list_filters w t mart dataset).

(** [server[mart][dataset].query(attributes=..., filters=...)]; an
    omitted [filters] is the empty dictionary. *)
Definition server_query (w : World) (server : Server) (mart dataset : string)
    (attributes : list string) (filters : gmap string string) : M DataFrame :=
  remote (EvQuery mart dataset attributes filters)
         (fun t => remote_query w t mart dataset attributes filters).

(** ** pandas operations used by the tools *)

Fixpoint index_of (label : string) (labels : list string) : option nat :=
  match labels with
  | [] => None
  | l :: ls => if decide (label = l) then Some 0 else S <$> index_of label ls
  end.

Definition cell (i : nat) (row : list string) : string :=
  default EmptyString (row !! i).

(** [df[label]]: the cells of a column; an unknown label is a
    [KeyError] whose text is the quoted label. *)
Definition getitem_column (label : string) (df : DataFrame) : result (list string) :=
  match index_of label (columns df) with
  | Some i => Ok (map (cell i) (rows df))
  | None => Raise (String squote (label +:+ str1 squote))
  end.

(** [df.iloc[:, i]]: the cells of the i-th column; out of range is an
    [IndexError]. *)
Definition iloc_column (i : nat) (df : DataFrame) : result (list string) :=
  if decide (i < length (columns df)) then Ok (map (cell i) (rows df))
  else Raise "single positional indexer is out-of-bounds".

Fixpoint select (mask : list bool) (rs : list (list string)) : list (list string) :=
  match mask, rs with
  | b :: mask', r :: rs' => if b then r :: select mask' rs' else select mask' rs'
  | _, _ => []
  end.

(** [df[mask]] for a boolean series [mask] aligned with the rows. *)
Definition getitem_mask (mask : list bool) (df : DataFrame) : DataFrame :=
  mkDataFrame (columns df) (select mask (rows df)).

(** [series.isin(values)] *)
Definition isin (values : list string) (series : list string) : list bool :=
  map (fun x => bool_decide (x ∈ values)) series.

(** [~series.str.contains(pat, na=False)] *)
Definition not_str_contains (pat : string) (series : list string) : list bool :=
  map (fun x => negb (contains pat x)) series.

(** [dict(pairs)]: later pairs overwrite earlier ones. *)
Definition dict (pairs : list (string * string)) : gmap string string :=
  foldl (fun d kv => <[kv.1 := kv.2]> d) ∅ pairs.

(** ** The tools *)

Definition msg_connect (e : string) : string :=
  "Error connecting to Biomart server: " +:+ e.
Definition msg_list_marts (e : string) : string :=
  "Error listing marts: " +:+ e.
Definition msg_list_datasets (mart e : string) : string :=
  "Error listing datasets for mart " +:+ mart +:+ ": " +:+ e.
Definition msg_get_data (attempt : nat) (e : string) : string :=
  "Error getting data (attempt " +:+ str_of_nat (attempt + 1) +:+ "/"
  +:+ str_of_nat MAX_RETRIES +:+ "): " +:+ e.
Definition msg_retry : string :=
  "Retrying in " +:+ str_of_nat RETRY_DELAY +:+ " seconds...".
Definition msg_target_log (target : string) : string :=
  "Target '" +:+ target +:+ "' not found in translation".
Definition msg_target (target : string) : string :=
  "Error: Target '" +:+ target +:+ "' not found".
Definition msg_translation (e : string) : string :=
  "Error in translation: " +:+ e.
Definition msg_error (e : string) : string := "Error: " +:+ e.

(** The body of [get_server], before decoration. *)
Definition get_server_body (w : World) (_ : unit) : M Server :=
  try_except (new_server w DEFAULT_HOST)
    (fun e => print_stderr (msg_connect e) >> raise e).

(** [get_server], wrapped by [lru_cache(maxsize=10)]; it takes no
    argument, so every call uses the same key. *)
Definition get_server (w : World) : M Server :=
  lru_cache 10 server_cache set_server_cache (get_server_body w) tt.

Definition list_marts (w : World) : M string :=
  try_except
    (let! server := get_server w in
     let! df := server_list_marts w server in
     ret (normalize (os_linesep w) df))
    (fun e => print_stderr (msg_list_marts e) >> ret (msg_error e)).

Definition list_datasets (w : World) (mart : string) : M string :=
  try_except
    (let! server := get_server w in
     let! df := server_list_datasets w server mart in
     ret (normalize (os_linesep w) df))
    (fun e => print_stderr (msg_list_datasets mart e) >> ret (msg_error e)).

Definition list_common_attributes (w : World) (mart dataset : string) : M string :=
  let! server := new_server w DEFAULT_HOST in
  let! df := server_list_attributes w server mart dataset in
  let! names := lift (getitem_column "name" df) in
  let df := getitem_mask (isin COMMON_ATTRIBUTES names) df in
  ret (normalize (os_linesep w) df).

(** One statement [df = df[~df[name].str.contains(pat, na=False)]]. *)
Definition drop_matching (pat : string) (df : DataFrame) : result DataFrame :=
  match getitem_column "name" df with
  | Ok names => Ok (getitem_mask (not_str_contains pat names) df)
  | Raise msg => Raise msg
  end.

Definition list_all_attributes (w : World) (mart dataset : string) : M string :=
  let! server := new_server w DEFAULT_HOST in
  let! df := server_list_attributes w server mart dataset in
  let! df := lift (drop_matching "_homolog_" df) in
  let! df := lift (drop_matching "dbass" df) in
  let! df := lift (drop_matching "affy_" df) in
  let! df := lift (drop_matching "agilent_" df) in
  ret (normalize (os_linesep w) df).

Definition list_filters (w : World) (mart dataset : string) : M string :=
  let! server := new_server w DEFAULT_HOST in
  let! df := server_list_filters w server mart dataset in
  ret (normalize (os_linesep w) df).

(** [server = get_server()] followed by
    [server[mart][dataset].query(attributes=..., filters=...)]: the two
    steps [get_data] and [get_translation] both start with. *)
Definition fetch_table (w : World) (mart dataset : string)
    (attributes : list string) (filters : gmap string string) : M DataFrame :=
  let! server := get_server w in
  server_query w server mart dataset attributes filters.

(** The [try] block of [get_data]. *)
Definition get_data_try (w : World) (mart dataset : string)
    (attributes : list string) (filters : gmap string string) : M string :=
  let! df := fetch_table w mart dataset attributes filters in
  ret (normalize (os_linesep w) df).

(** [for attempt in attempts: try ... except ...]; a loop that runs out
    of attempts falls through and the function returns [None]. *)
Fixpoint get_data_loop (w : World) (mart dataset : string)
    (attributes : list string) (filters : gmap string string)
    (attempts : list nat) : M (option string) :=
  match attempts with
  | [] => ret None
  | attempt :: rest =>
      fun st =>
        match get_data_try w mart dataset attributes filters st with
        | (st1, Ok text) => (st1, Ok (Some text))
        | (st1, Raise e) =>
            (print_stderr (msg_get_data attempt e) >>
             if decide (attempt < MAX_RETRIES - 1)
             then (print_stderr msg_retry >>
                   sleep RETRY_DELAY >>
                   get_data_loop w mart dataset attributes filters rest)
             else ret (Some (msg_error e))) st1
        end
  end.

Definition get_data (w : World) (mart dataset : string)
    (attributes : list string) (filters : gmap string string) : M (option string) :=
  get_data_loop w mart dataset attributes filters (seq 0 MAX_RETRIES).

(** The first four statements of the [try] block of
    [get_translation]: the two-column query and the dictionary built
    from its first two columns. *)
Definition build_mapping (w : World) (mart dataset from_attr to_attr : string)
  : M (gmap string string) :=
  let! df := fetch_table w mart dataset [from_attr; to_attr] ∅ in
  let! froms := lift (iloc_column 0 df) in
  let! tos := lift (iloc_column 1 df) in
  ret (dict (zip froms tos)).

(** The body of [get_translation], before decoration. *)
Definition get_translation_body (w : World) (k : TKey) : M string :=
  let '(mart, dataset, from_attr, to_attr, target) := k in
  try_except
    (let! result_dict := build_mapping w mart dataset from_attr to_attr in
     match result_dict !! target with
     | None => print_stderr (msg_target_log target) >> ret (msg_target target)
     | Some v => ret v
     end)
    (fun e => print_stderr (msg_translation e) >> ret (msg_error e)).

(** [get_translation], wrapped by [lru_cache(maxsize=1000)]. *)
Definition get_translation_key (w : World) : TKey -> M string :=
  lru_cache 1000 translation_cache set_translation_cache (get_translation_body w).

Definition get_translation (w : World)
    (mart dataset from_attr to_attr target : string) : M string :=
  get_translation_key w (mart, dataset, from_attr, to_attr, target).

(** ** All seven tools behind one call *)

Inductive tool : Type :=
| ListMarts
| ListDatasets (mart : string)
| ListCommonAttributes (mart dataset : string)
| ListAllAttributes (mart dataset : string)
| ListFilters (mart dataset : string)
| GetData (mart dataset : string) (attributes : list string)
          (filters : gmap string string)
| GetTranslation (mart dataset from_attr to_attr target : string).

Definition some {A} (m : M A) : M (option A) := let! a := m in ret (Some a).

Definition call (w : World) (t : tool) : M (option string) :=
  match t with
  | ListMarts => some (list_marts w)
  | ListDatasets mart => some (list_datasets w mart)
  | ListCommonAttributes mart dataset => some (list_common_attributes w mart dataset)
  | ListAllAttributes mart dataset => some (list_all_attributes w mart dataset)
  | ListFilters mart dataset => some (list_filters w mart dataset)
  | GetData mart dataset attributes filters =>
      get_data w mart dataset attributes filters
  | GetTranslation mart dataset from_attr to_attr target =>
      some (get_translation w mart dataset from_attr to_attr target)
  end.

(** The catalog-listing tools. *)
Definition is_listing (t : tool) : bool :=
  match t with
  | ListMarts | ListDatasets _ | ListCommonAttributes _ _
  | ListAllAttributes _ _ | ListFilters _ _ => true
  | _ => false
  end.

(** Tools run one after the other, each to completion; the state is
    threaded through and the outcomes are collected. *)
Fixpoint run_calls (w : World) (ts : list tool) (st : State)
  : State * list (result (option string)) :=
  match ts with
  | [] => (st, [])
  | t :: ts' =>
      let '(st1, r) := call w t st in
      let '(st2, rs) := run_calls w ts' st1 in
      (st2, r :: rs)
  end.

(** ** Bookkeeping for the retry loop of [get_data] *)

(** The state in which the next attempt starts, once attempt [attempt]
    has failed with [e] and attempts remain: failure logged, retry
    announced, sleep done. *)
Definition after_failure (attempt : nat) (e : string) (st : State) : State :=
  fst ((print_stderr (msg_get_data attempt e) >>
        print_stderr msg_retry >>
        sleep RETRY_DELAY) st).

(** [failed_attempts w ... attempt n st = Some st']: from [st], the [n]
    attempts numbered [attempt], [attempt + 1], ... all fail, and [st']
    is the state in which the attempt after them starts. *)
Fixpoint failed_attempts (w : World) (mart dataset : string)
    (attributes : list string) (filters : gmap string string)
    (attempt n : nat) (st : State) : option State :=
  match n with
  | 0 => Some st
  | S n' =>
      match get_data_try w mart dataset attributes filters st with
      | (st1, Raise e) =>
          failed_attempts w mart dataset attributes filters (S attempt) n'
                          (after_failure attempt e st1)
      | (_, Ok _) => None
      end
  end.

(** Classification of diagnostic lines. *)
Definition is_failure_entry (line : string) : bool :=
  startswith "Error getting data (attempt " line.
Definition is_retry_notice (line : string) : bool :=
  String.eqb line msg_retry.

Definition count_lines (p : string -> bool) (ls : list string) : nat :=
  length (List.filter p ls).

(** ** A reader for the returned text

    The reader of the standard CSV dialect the writer above uses: comma
    as delimiter, double quote as quote character, a doubled quote inside
    a quoted field for one quote, newline as record end.  It runs on the
    text the tools return, which holds no carriage return. *)

Inductive pstate : Type :=
| StartRecord | StartField | InField | InQuoted | QuoteInQuoted.

Fixpoint parse_from (s : string) (m : pstate) (field : string)
    (record : list string) : list (list string) :=
  match s with
  | EmptyString =>
      match m with
      | StartRecord => []
      | _ => [record ++ [field]]
      end
  | String c s' =>
      match m with
      | StartRecord | StartField =>
          if Ascii.eqb c LF then
            match m with
            | StartRecord => []
            | _ => record ++ [field]
            end :: parse_from s' StartRecord EmptyString []
          else if Ascii.eqb c dquote then parse_from s' InQuoted EmptyString record
          else if Ascii.eqb c comma then
            parse_from s' StartField EmptyString (record ++ [field])
          else parse_from s' InField (str1 c) record
      | InField =>
          if Ascii.eqb c LF then
            (record ++ [field]) :: parse_from s' StartRecord EmptyString []
          else if Ascii.eqb c comma then
            parse_from s' StartField EmptyString (record ++ [field])
          else parse_from s' InField (field +:+ str1 c) record
      | InQuoted =>
          if Ascii.eqb c dquote then parse_from s' QuoteInQuoted field record
          else parse_from s' InQuoted (field +:+ str1 c) record
      | QuoteInQuoted =>
          if Ascii.eqb c dquote then parse_from s' InQuoted (field +:+ str1 dquote) record
          else if Ascii.eqb c comma then
            parse_from s' StartField EmptyString (record ++ [field])
          else if Ascii.eqb c LF then
            (record ++ [field]) :: parse_from s' StartRecord EmptyString []
          else parse_from s' InField (field +:+ str1 c) record
      end
  end.

Definition parse_csv (text : string) : list (list string) :=
  parse_from text StartRecord EmptyString [].

(** The table a text denotes: the first record is the header. *)
Definition read_csv (text : string) : option DataFrame :=
  match parse_csv text with
  | [] => None
  | header :: records => Some (mkDataFrame header records)
  end.

(** No carriage return occurs in a string, in a table. *)
Definition cr_free (s : string) : bool := negb (mem_char CR s).
Definition cr_free_table (df : DataFrame) : bool :=
  forallb cr_free (columns df) && forallb (forallb cr_free) (rows df).

(** ** Sample worlds and tables *)

Definition newline : string := str1 LF.
Definition crlf : string := String CR (str1 LF).

Definition mart_table : DataFrame :=
  mkDataFrame ["name"; "display_name"]
    [ ["ENSEMBL_MART_ENSEMBL"; "Ensembl Genes"];
      ["ENSEMBL_MART_SNP"; "Ensembl Variation"] ].

Definition dataset_table : DataFrame :=
  mkDataFrame ["name"; "display_name"]
    [ ["hsapiens_gene_ensembl"; "Human genes"] ].

Definition attribute_table : DataFrame :=
  mkDataFrame ["name"; "display_name"; "description"]
    [ ["ensembl_gene_id"; "Gene stable ID"; "Stable ID of the Gene"];
      ["affy_hc_g110"; "AFFY HC G110 probe"; EmptyString];
      ["hgnc_symbol"; "HGNC symbol"; EmptyString];
      ["cfamiliaris_homolog_ensembl_gene"; "Dog gene stable ID"; EmptyString];
      ["go_id"; "GO term accession"; EmptyString] ].

Definition filter_table : DataFrame :=
  mkDataFrame ["name"; "type"; "description"]
    [ ["chromosome_name"; "list"; EmptyString] ].

Definition gene_table : DataFrame :=
  mkDataFrame ["HGNC symbol"; "Gene stable ID"]
    [ ["TP53"; "ENSG00000141510"];
      ["BRCA1"; "ENSG00000012048"];
      ["TP53"; "ENSG00000999999"] ].

Definition MART : string := "ENSEMBL_MART_ENSEMBL".
Definition DATASET : string := "hsapiens_gene_ensembl".

(** A world in which every connection succeeds and every listing is
    served, while a query fails up to instant [n] and yields
    [gene_table] afterwards. *)
Definition flaky_world (n : nat) : World :=
  mkWorld newline
    (fun _ _ => Ok tt)
    (fun _ => Ok mart_table)
    (fun _ _ => Ok dataset_table)
    (fun _ _ _ => Ok attribute_table)
    (fun _ _ _ => Ok filter_table)
    (fun t _ _ _ _ =>
       if decide (n < t) then Ok gene_table else Raise "remote host timed out").

(** A world that never changes and never fails. *)
Definition steady_world : World :=
  mkWorld newline
    (fun _ _ => Ok tt)
    (fun _ => Ok mart_table)
    (fun _ _ => Ok dataset_table)
    (fun _ _ _ => Ok attribute_table)
    (fun _ _ _ => Ok filter_table)
    (fun _ _ _ _ _ => Ok gene_table).

(** The steady world on a platform whose line separator is carriage
    return, line feed. *)
Definition windows_world : World :=
  mkWorld crlf
    (fun _ _ => Ok tt)
    (fun _ => Ok mart_table)
    (fun _ _ => Ok dataset_table)
    (fun _ _ _ => Ok attribute_table)
    (fun _ _ _ => Ok filter_table)
    (fun _ _ _ _ _ => Ok gene_table).

(** A world whose host never accepts a connection. *)
Definition unreachable_world : World :=
  mkWorld newline
    (fun _ _ => Raise "host unreachable")
    (fun _ => Ok mart_table)
    (fun _ _ => Ok dataset_table)
    (fun _ _ _ => Ok attribute_table)
    (fun _ _ _ => Ok filter_table)
    (fun _ _ _ _ _ => Ok gene_table).

(** A world whose host answers but knows no mart and no dataset. *)
Definition empty_world : World :=
  mkWorld newline
    (fun _ _ => Ok tt)
    (fun _ => Ok mart_table)
    (fun _ _ => Raise "'NO_SUCH_MART'")
    (fun _ _ _ => Raise "'NO_SUCH_MART'")
    (fun _ _ _ => Raise "'NO_SUCH_MART'")
    (fun _ _ _ _ _ => Raise "'NO_SUCH_MART'").

(** ** Attribute policies, stated on names *)

(** The name matches one of the four excluded substrings. *)
Definition excluded (name : string) : bool :=
  existsb (fun pat => contains pat name) EXCLUDED_SUBSTRINGS.

(** The name is on the allow-list. *)
Definition common (name : string) : bool :=
  bool_decide (name ∈ COMMON_ATTRIBUTES).

(** The table with the same columns and the records [keep] accepts. *)
Definition restrict (keep : list string -> bool) (df : DataFrame) : DataFrame :=
  mkDataFrame (columns df) (List.filter keep (rows df)).

(** The translation request of the docstring of [get_translation], and
    the same request for another target. *)
Definition ask (target : string) : tool :=
  GetTranslation MART DATASET "hgnc_symbol" "ensembl_gene_id" target.

(** A thousand translation requests with pairwise different targets
    (the decimal numerals 0 to 999). *)
Definition thousand_asks : list tool :=
  map (fun n => GetTranslation "m" "d" "a" "b" (str_of_nat n)) (seq 0 1000).

(** ** Vocabulary for the caches *)

(** A connection can be had in [st]: one is cached, or the host accepts
    one now. *)
Definition available (w : World) (st : State) : Prop :=
  server_cache st <> [] \/ connect w (clock st) DEFAULT_HOST = Ok tt.

(** The tool call made by [get_translation] with the arguments of [k]. *)
Definition translation_call (k : TKey) : tool :=
  let '(mart, dataset, from_attr, to_attr, target) := k in
  GetTranslation mart dataset from_attr to_attr target.

(** The keys of the [get_translation] calls among [ts], in call order. *)
Fixpoint translation_keys (ts : list tool) : list TKey :=
  match ts with
  | [] => []
  | GetTranslation mart dataset from_attr to_attr target :: ts' =>
      (mart, dataset, from_attr, to_attr, target) :: translation_keys ts'
  | _ :: ts' => translation_keys ts'
  end.

(** ** Vocabulary for the returned text *)

(** The tools that return a table. *)
Definition is_table_tool (t : tool) : bool :=
  match t with
  | GetTranslation _ _ _ _ _ => false
  | _ => true
  end.

(** The line (or lines, when a quoted cell holds a newline) one record
    contributes to the returned text. *)
Definition row_text (lineterminator : string) (record : list string) : string :=
  remove_cr (write_row lineterminator record).

(** A table with a carriage return inside a cell. *)
Definition cr_table : DataFrame :=
  mkDataFrame ["name"; "description"]
    [ ["band"; String "a" (String CR (String "b" EmptyString))] ].

(** ** Vocabulary for traces *)

(** The events one call of [get_server] adds. *)
Inductive server_events (st : State) : list event -> Prop :=
| server_events_hit :
    server_cache st <> [] -> server_events st []
| server_events_new :
    server_cache st = [] -> server_events st [EvConnect DEFAULT_HOST]
| server_events_fail e :
    server_cache st = [] ->
    server_events st [EvConnect DEFAULT_HOST; EvStderr (msg_connect e)].

(** The events of one [try] block hold no sleep and no line of the
    retry loop itself. *)
Definition attempt_quiet (d : list event) : Prop :=
  sleeps d = [] /\
  count_lines is_failure_entry (stderr_lines d) = 0 /\
  count_lines is_retry_notice (stderr_lines d) = 0.

(** [keeps_translations m]: running [m] does not touch the store of
    [get_translation]. *)
Definition keeps_translations {A} (m : M A) : Prop :=
  forall st, translation_cache (fst (m st)) = translation_cache st.

(** ** Vocabulary for more properties *)

(** The tools that obtain their connection from [get_server]. *)
Definition uses_connection_cache (t : tool) : bool :=
  match t with
  | ListMarts | ListDatasets _ | GetData _ _ _ _
  | GetTranslation _ _ _ _ _ => true
  | _ => false
  end.

(** How many calls among [ts] build a connection of their own. *)
Fixpoint count_own_connections (ts : list tool) : nat :=
  match ts with
  | [] => 0
  | t :: ts' =>
      (if uses_connection_cache t then 0 else 1) + count_own_connections ts'
  end.

(** [preserves P m]: a state property [P] survives a run of [m]. *)
Definition preserves {A} (P : State -> Prop) (m : M A) : Prop :=
  forall st, P st -> P (fst (m st)).

(** A connection is cached and [n] connections have been opened so far. *)
Definition connected (n : nat) (st : State) : Prop :=
  server_cache st <> [] /\ count_connects (trace st) = n.

(** The connection cache holds at most one handle. *)
Definition one_server (st : State) : Prop := length (server_cache st) <= 1.

(** Both caches are within their bounds, and no key is stored twice. *)
Definition caches_bounded (st : State) : Prop :=
  length (server_cache st) <= 1 /\
  length (translation_cache st) <= 1000 /\
  NoDup (translation_cache st).*1.

(** A world whose host refuses connections up to instant [n] and accepts
    them afterwards; everything else is served. *)
Definition flaky_host (n : nat) : World :=
  mkWorld newline
    (fun t _ => if decide (n < t) then Ok tt else Raise "host unreachable")
    (fun _ => Ok mart_table)
    (fun _ _ => Ok dataset_table)
    (fun _ _ _ => Ok attribute_table)
    (fun _ _ _ => Ok filter_table)
    (fun _ _ _ _ _ => Ok gene_table).

(** A world whose attribute listing lacks the [name] column. *)
Definition nameless_world : World :=
  mkWorld newline
    (fun _ _ => Ok tt)
    (fun _ => Ok mart_table)
    (fun _ _ => Ok dataset_table)
    (fun _ _ _ => Ok gene_table)
    (fun _ _ _ => Ok filter_table)
    (fun _ _ _ _ _ => Ok gene_table).

(** A world whose queries answer with a single column. *)
Definition narrow_world : World :=
  mkWorld newline
    (fun _ _ => Ok tt)
    (fun _ => Ok mart_table)
    (fun _ _ => Ok dataset_table)
    (fun _ _ _ => Ok attribute_table)
    (fun _ _ _ => Ok filter_table)
    (fun _ _ _ _ _ => Ok (mkDataFrame ["HGNC symbol"] [["TP53"]])).

(** * Properties *)

(** ** Traces *)

Lemma stderr_lines_app (a b : list event) :
  stderr_lines (a ++ b) = stderr_lines a ++ stderr_lines b.
Proof.
  induction a as [|e a IH]; [done|].
  destruct e; simpl; by rewrite ?IH.
Qed.

Lemma sleeps_app (a b : list event) : sleeps (a ++ b) = sleeps a ++ sleeps b.
Proof.
  induction a as [|e a IH]; [done|].
  destruct e; simpl; by rewrite ?IH.
Qed.

Lemma count_queries_app (a b : list event) :
  count_queries (a ++ b) = count_queries a + count_queries b.
Proof. unfold count_queries. by rewrite filter_app, length_app. Qed.

Lemma count_queries_stderr (tr : list event) (line : string) :
  count_queries (tr ++ [EvStderr line]) = count_queries tr.
Proof.
  rewrite count_queries_app.
  change (count_queries [EvStderr line]) with 0. lia.
Qed.

Lemma count_connects_app (a b : list event) :
  count_connects (a ++ b) = count_connects a + count_connects b.
Proof. unfold count_connects. by rewrite filter_app, length_app. Qed.

Lemma count_lines_app (p : string -> bool) (a b : list string) :
  count_lines p (a ++ b) = count_lines p a + count_lines p b.
Proof. unfold count_lines. by rewrite List.filter_app, length_app. Qed.

(** ** The connection cache *)

(** What a call of [get_server] does, by cases on its cache and on the
    answer of the remote host. *)
Lemma get_server_cached (w : World) (st : State) (u : unit) (srv : Server)
    (c : list (unit * Server)) :
  server_cache st = (u, srv) :: c ->
  get_server w st =
    (set_server_cache (lru_hit tt srv (server_cache st)) st, Ok srv).
Proof.
  intros Hc. unfold get_server, lru_cache. rewrite Hc. by destruct u.
Qed.

Lemma get_server_connects (w : World) (st : State) :
  server_cache st = [] ->
  connect w (clock st) DEFAULT_HOST = Ok tt ->
  get_server w st =
    (mkState (S (clock st)) (trace st ++ [EvConnect DEFAULT_HOST])
             [(tt, mkServer DEFAULT_HOST (clock st))] (translation_cache st),
     Ok (mkServer DEFAULT_HOST (clock st))).
Proof.
  intros Hc Hw.
  unfold get_server, lru_cache, get_server_body, try_except, new_server, remote.
  rewrite Hc. simpl. rewrite Hw. reflexivity.
Qed.

Lemma get_server_fails (w : World) (st : State) (e : string) :
  server_cache st = [] ->
  connect w (clock st) DEFAULT_HOST = Raise e ->
  get_server w st =
    (mkState (S (clock st))
             (trace st ++ [EvConnect DEFAULT_HOST; EvStderr (msg_connect e)])
             [] (translation_cache st),
     Raise e).
Proof.
  intros Hc Hw.
  unfold get_server, lru_cache, get_server_body, try_except, new_server, remote.
  rewrite Hc. simpl. rewrite Hw. simpl.
  unfold bind, print_stderr, emit, raise. simpl.
  by rewrite <- app_assoc.
Qed.


Lemma get_server_trace (w : World) (st st' : State) (r : result Server) :
  get_server w st = (st', r) ->
  exists d, trace st' = trace st ++ d /\ server_events st d /\
            translation_cache st' = translation_cache st /\
            (forall e, r = Raise e -> server_cache st' = [] /\
                       d = [EvConnect DEFAULT_HOST; EvStderr (msg_connect e)]) /\
            (forall srv, r = Ok srv ->
                         server_cache st' <> [] /\ stderr_lines d = []).
Proof.
  intros H.
  destruct (server_cache st) as [|[u srv] c] eqn:Hc.
  - destruct (connect w (clock st) DEFAULT_HOST) as [[]|e] eqn:Hw.
    + rewrite (get_server_connects w st Hc Hw) in H. inversion H; subst; clear H.
      exists [EvConnect DEFAULT_HOST]. simpl. repeat split; try done.
      by apply server_events_new.
    + rewrite (get_server_fails w st e Hc Hw) in H. inversion H; subst; clear H.
      exists [EvConnect DEFAULT_HOST; EvStderr (msg_connect e)]. simpl.
      repeat split; try done.
      * by apply server_events_fail.
      * by simplify_eq.
  - rewrite (get_server_cached w st u srv c Hc) in H.
    inversion H; subst; clear H.
    exists []. simpl. rewrite app_nil_r. repeat split; try done.
    apply server_events_hit. by rewrite Hc.
Qed.

Lemma get_server_available (w : World) (st : State) :
  available w st -> exists st' srv, get_server w st = (st', Ok srv).
Proof.
  intros [Hc|Hw].
  - destruct (server_cache st) as [|[u srv] c] eqn:Hs; [done|].
    rewrite (get_server_cached w st u srv c Hs). eauto.
  - destruct (server_cache st) as [|[u srv] c] eqn:Hs.
    + rewrite (get_server_connects w st Hs Hw). eauto.
    + rewrite (get_server_cached w st u srv c Hs). eauto.
Qed.

(** ** The retry loop of [get_data] *)


Lemma server_events_quiet (st : State) (d : list event) :
  server_events st d -> attempt_quiet d.
Proof. by intros [H|H|e H]. Qed.

Lemma fetch_table_trace (w : World) (mart dataset : string)
    (attributes : list string) (filters : gmap string string)
    (st st' : State) (r : result DataFrame) :
  fetch_table w mart dataset attributes filters st = (st', r) ->
  exists d, trace st' = trace st ++ d /\ attempt_quiet d /\
            translation_cache st' = translation_cache st /\
            (server_cache st <> [] ->
             d = [EvQuery mart dataset attributes filters] /\
             server_cache st' <> []).
Proof.
  unfold fetch_table, bind. intros H.
  destruct (get_server w st) as [s1 [srv|e]] eqn:Hs;
    destruct (get_server_trace w st s1 _ Hs) as (d & Hd & Hev & Htc & Hf & Hok).
  - unfold server_query, remote in H. inversion H; subst; clear H. simpl.
    exists (d ++ [EvQuery mart dataset attributes filters]).
    rewrite Hd, <- app_assoc. repeat split; try done.
    + rewrite sleeps_app. destruct (server_events_quiet st d Hev) as (-> & _). done.
    + rewrite stderr_lines_app, count_lines_app.
      destruct (server_events_quiet st d Hev) as (_ & -> & _). done.
    + rewrite stderr_lines_app, count_lines_app.
      destruct (server_events_quiet st d Hev) as (_ & _ & ->). done.
    + destruct Hev as [?|?|? ?]; [done|congruence..].
    + by eapply Hok.
  - inversion H; subst; clear H.
    exists d. repeat split; try done; try apply (server_events_quiet st d Hev).
    + destruct (Hf e eq_refl) as [_ Hd']. destruct Hev as [?|?|? ?]; congruence.
    + destruct (Hf e eq_refl) as [_ Hd']. destruct Hev as [?|?|? ?]; congruence.
Qed.

Lemma get_data_try_trace (w : World) (mart dataset : string)
    (attributes : list string) (filters : gmap string string)
    (st st' : State) (r : result string) :
  get_data_try w mart dataset attributes filters st = (st', r) ->
  exists d, trace st' = trace st ++ d /\ attempt_quiet d /\
            translation_cache st' = translation_cache st /\
            (server_cache st <> [] ->
             d = [EvQuery mart dataset attributes filters] /\
             server_cache st' <> []).
Proof.
  unfold get_data_try, bind, ret. intros H.
  destruct (fetch_table w mart dataset attributes filters st) as [s1 [df|e]] eqn:Hf;
    inversion H; subst; clear H;
    by apply (fetch_table_trace w mart dataset attributes filters st st' _ Hf).
Qed.

Lemma is_failure_entry_msg (attempt : nat) (e : string) :
  is_failure_entry (msg_get_data attempt e) = true.
Proof. reflexivity. Qed.

Lemma is_retry_notice_msg (attempt : nat) (e : string) :
  is_retry_notice (msg_get_data attempt e) = false.
Proof. reflexivity. Qed.

Lemma after_failure_trace (attempt : nat) (e : string) (st : State) :
  trace (after_failure attempt e st) =
    trace st ++ [EvStderr (msg_get_data attempt e); EvStderr msg_retry;
                 EvSleep RETRY_DELAY].
Proof. unfold after_failure. simpl. by rewrite <- !app_assoc. Qed.

Lemma after_failure_server_cache (attempt : nat) (e : string) (st : State) :
  server_cache (after_failure attempt e st) = server_cache st.
Proof. reflexivity. Qed.

Lemma get_data_loop_failed (w : World) (mart dataset : string)
    (attributes : list string) (filters : gmap string string) (n : nat) :
  forall (attempt : nat) (rest : list nat) (st st' : State),
    attempt + n <= MAX_RETRIES - 1 ->
    failed_attempts w mart dataset attributes filters attempt n st = Some st' ->
    get_data_loop w mart dataset attributes filters (seq attempt n ++ rest) st =
    get_data_loop w mart dataset attributes filters rest st'.
Proof.
  induction n as [|n IH]; intros attempt rest st st' Hle Hf.
  - simpl in Hf. by inversion Hf.
  - simpl in Hf. simpl.
    destruct (get_data_try w mart dataset attributes filters st) as [s1 [text|e]];
      [done|].
    unfold bind at 1. simpl.
    case_decide; [|unfold MAX_RETRIES in Hle; lia].
    by rewrite <- (IH (S attempt) rest (after_failure attempt e s1) st');
      [|lia|exact Hf].
Qed.

Lemma failed_attempts_trace (w : World) (mart dataset : string)
    (attributes : list string) (filters : gmap string string) (n : nat) :
  forall (attempt : nat) (st st' : State),
    failed_attempts w mart dataset attributes filters attempt n st = Some st' ->
    exists d, trace st' = trace st ++ d /\
              sleeps d = replicate n RETRY_DELAY /\
              count_lines is_failure_entry (stderr_lines d) = n /\
              count_lines is_retry_notice (stderr_lines d) = n.
Proof.
  induction n as [|n IH]; intros attempt st st' Hf; simpl in Hf.
  - inversion Hf; subst. exists []. by rewrite app_nil_r.
  - destruct (get_data_try w mart dataset attributes filters st) as [s1 [text|e]] eqn:Ht;
      [done|].
    destruct (get_data_try_trace _ _ _ _ _ _ _ _ Ht) as (d1 & Hd1 & (Hs & Hfe & Hrn) & _).
    destruct (IH _ _ _ Hf) as (d2 & Hd2 & Hs2 & Hfe2 & Hrn2).
    rewrite after_failure_trace, Hd1 in Hd2.
    exists (d1 ++ [EvStderr (msg_get_data attempt e); EvStderr msg_retry;
                   EvSleep RETRY_DELAY] ++ d2).
    split; [by rewrite Hd2, <- !app_assoc|].
    rewrite !sleeps_app, !stderr_lines_app, !count_lines_app, Hs, Hfe, Hrn,
      Hs2, Hfe2, Hrn2.
    done.
Qed.

(** C5.  When the first [k - 1] attempts of [get_data] fail and attempt
    [k <= 3] obtains the table [df], [get_data] returns the normalized
    text of [df] and stops in the very state attempt [k] ended in:
    nothing is attempted, logged or slept afterwards, and nothing of the
    failed attempts enters the result. *)
Theorem get_data_returns_first_success (w : World) (mart dataset : string)
    (attributes : list string) (filters : gmap string string)
    (k : nat) (st st1 st2 : State) (df : DataFrame) :
  1 <= k <= MAX_RETRIES ->
  failed_attempts w mart dataset attributes filters 0 (k - 1) st = Some st1 ->
  fetch_table w mart dataset attributes filters st1 = (st2, Ok df) ->
  get_data w mart dataset attributes filters st =
    (st2, Ok (Some (normalize (os_linesep w) df))).
Proof.
  intros Hk Hfail Hfetch. unfold get_data.
  assert (Hseq : seq 0 MAX_RETRIES =
                 seq 0 (k - 1) ++ (k - 1) :: seq k (MAX_RETRIES - k)).
  { unfold MAX_RETRIES in *.
    destruct k as [|[|[|[|k]]]]; simpl; try reflexivity; lia. }
  rewrite Hseq.
  rewrite (get_data_loop_failed w mart dataset attributes filters (k - 1)
             0 _ st st1); [|lia|exact Hfail].
  simpl. unfold get_data_try, bind. by rewrite Hfetch.
Qed.

Lemma get_data_returns_first_success_witness :
  exists st2,
    get_data (flaky_world 1) MART DATASET
             ["hgnc_symbol"; "ensembl_gene_id"] ∅ initial_state =
      (st2, Ok (Some (normalize newline gene_table))).
Proof.
  eexists.
  eapply (get_data_returns_first_success (flaky_world 1) _ _ _ _ 2).
  - unfold MAX_RETRIES. lia.
  - reflexivity.
  - reflexivity.
Defined.

(** An attempt made while a connection can be had writes nothing to
    the diagnostic stream, and leaves a connection in the cache. *)
Lemma get_data_try_available (w : World) (mart dataset : string)
    (attributes : list string) (filters : gmap string string)
    (st st' : State) (r : result string) :
  available w st ->
  get_data_try w mart dataset attributes filters st = (st', r) ->
  exists d, trace st' = trace st ++ d /\ stderr_lines d = [] /\
            server_cache st' <> [].
Proof.
  intros Hav. unfold get_data_try, fetch_table, bind, ret. intros H.
  destruct (get_server_available w st Hav) as (s1 & srv & Hs). rewrite Hs in H.
  destruct (get_server_trace w st s1 _ Hs) as (d & Hd & _ & _ & _ & Hok).
  destruct (Hok srv eq_refl) as [Hcache Hquiet].
  unfold server_query, remote in H.
  exists (d ++ [EvQuery mart dataset attributes filters]).
  rewrite stderr_lines_app, Hquiet.
  destruct (remote_query w (clock s1) mart dataset attributes filters);
    inversion H; subst; clear H; simpl; by rewrite Hd, <- app_assoc.
Qed.

(** C4.  When all three attempts of [get_data] fail, the call returns
    the text [Error: <message>] of the last failure instead of raising;
    it sleeps [RETRY_DELAY = 2] seconds twice, once after each of the
    first two failures; and the retry loop writes exactly three failure
    entries and two retry notices to the diagnostic stream.  When a
    connection can be had (it is cached, or the host accepts one), so
    that it is the remote query that fails, these five lines are all the
    call writes; with the connection already cached the events of the
    call are exactly query, failure entry, retry notice, sleep, twice
    over, then query and failure entry. *)
Theorem get_data_all_attempts_fail (w : World) (mart dataset : string)
    (attributes : list string) (filters : gmap string string)
    (st st2 st3 : State) (e3 : string) :
  failed_attempts w mart dataset attributes filters 0 2 st = Some st2 ->
  get_data_try w mart dataset attributes filters st2 = (st3, Raise e3) ->
  exists st' d,
    get_data w mart dataset attributes filters st = (st', Ok (Some (msg_error e3))) /\
    trace st' = trace st ++ d /\
    sleeps d = [RETRY_DELAY; RETRY_DELAY] /\
    count_lines is_failure_entry (stderr_lines d) = 3 /\
    count_lines is_retry_notice (stderr_lines d) = 2 /\
    (available w st ->
     exists e1 e2,
       stderr_lines d =
         [ msg_get_data 0 e1; msg_retry; msg_get_data 1 e2; msg_retry;
           msg_get_data 2 e3 ]) /\
    (server_cache st <> [] ->
     exists e1 e2,
       let q := EvQuery mart dataset attributes filters in
       d = [ q; EvStderr (msg_get_data 0 e1); EvStderr msg_retry; EvSleep RETRY_DELAY;
             q; EvStderr (msg_get_data 1 e2); EvStderr msg_retry; EvSleep RETRY_DELAY;
             q; EvStderr (msg_get_data 2 e3) ]).
Proof.
  intros Hfail Hlast.
  destruct (failed_attempts_trace _ _ _ _ _ _ _ _ _ Hfail) as (d12 & Hd12 & Hs12 & Hf12 & Hr12).
  destruct (get_data_try_trace _ _ _ _ _ _ _ _ Hlast) as (d3 & Hd3 & (Hs3 & Hf3 & Hr3) & _ & _).
  eexists _, (d12 ++ d3 ++ [EvStderr (msg_get_data 2 e3)]).
  split; [|split; [|split; [|split; [|split; [|split]]]]].
  - unfold get_data. change (seq 0 MAX_RETRIES) with (seq 0 2 ++ [2]).
    rewrite (get_data_loop_failed w mart dataset attributes filters 2 0 [2] st st2);
      [|unfold MAX_RETRIES; lia|exact Hfail].
    simpl. rewrite Hlast. unfold bind. simpl. reflexivity.
  - simpl. by rewrite Hd3, Hd12, <- !app_assoc.
  - by rewrite !sleeps_app, Hs12, Hs3.
  - rewrite !stderr_lines_app, !count_lines_app, Hf12, Hf3. reflexivity.
  - rewrite !stderr_lines_app, !count_lines_app, Hr12, Hr3. reflexivity.
  - intros Hav. simpl in Hfail.
    destruct (get_data_try w mart dataset attributes filters st)
      as [s1 [?|e1]] eqn:H1; [done|].
    destruct (get_data_try_available _ _ _ _ _ _ _ _ Hav H1) as (d1 & Hd1 & Hl1 & Hc1).
    destruct (get_data_try w mart dataset attributes filters (after_failure 0 e1 s1))
      as [s2 [?|e2]] eqn:H2; [done|].
    destruct (get_data_try_available w mart dataset attributes filters
                (after_failure 0 e1 s1) _ _ (or_introl Hc1) H2)
      as (d2 & Hd2 & Hl2 & Hc2).
    inversion Hfail; subst st2; clear Hfail.
    destruct (get_data_try_available w mart dataset attributes filters
                (after_failure 1 e2 s2) _ _ (or_introl Hc2) Hlast)
      as (d3' & Hd3' & Hl3 & _).
    exists e1, e2.
    rewrite Hd3' in Hd3. apply app_inv_head in Hd3. subst d3'.
    rewrite after_failure_trace, Hd2, after_failure_trace, Hd1, <- !app_assoc in Hd12.
    apply app_inv_head in Hd12. subst d12.
    rewrite !stderr_lines_app, Hl1, Hl2, Hl3. reflexivity.
  - intros Hcached. simpl in Hfail.
    destruct (get_data_try w mart dataset attributes filters st)
      as [s1 [?|e1]] eqn:H1; [done|].
    destruct (get_data_try_trace _ _ _ _ _ _ _ _ H1) as (d1 & Hd1 & _ & _ & Hc1).
    destruct (Hc1 Hcached) as [-> Hcached1].
    destruct (get_data_try w mart dataset attributes filters (after_failure 0 e1 s1))
      as [s2 [?|e2]] eqn:H2; [done|].
    destruct (get_data_try_trace _ _ _ _ _ _ _ _ H2) as (d2 & Hd2 & _ & _ & Hc2).
    destruct (Hc2 Hcached1) as [-> Hcached2].
    inversion Hfail; subst st2; clear Hfail.
    destruct (get_data_try_trace _ _ _ _ _ _ _ _ Hlast) as (d3' & Hd3' & _ & _ & Hc3).
    destruct (Hc3 Hcached2) as [-> _].
    exists e1, e2. simpl.
    rewrite Hd3' in Hd3. apply app_inv_head in Hd3. subst d3.
    rewrite after_failure_trace, Hd2, after_failure_trace, Hd1, <- !app_assoc in Hd12.
    apply app_inv_head in Hd12. by subst d12.
Qed.

Lemma get_data_all_attempts_fail_witness :
  exists st' d,
    get_data (flaky_world 3) MART DATASET ["hgnc_symbol"] ∅ initial_state =
      (st', Ok (Some "Error: remote host timed out")) /\
    trace st' = trace initial_state ++ d /\
    sleeps d = [2; 2] /\
    count_lines is_failure_entry (stderr_lines d) = 3 /\
    count_lines is_retry_notice (stderr_lines d) = 2 /\
    length (stderr_lines d) = 5.
Proof.
  destruct (get_data_all_attempts_fail (flaky_world 3) MART
              DATASET ["hgnc_symbol"] ∅ initial_state
              _ _ "remote host timed out" eq_refl eq_refl)
    as (st' & d & H1 & H2 & H3 & H4 & H5 & H6 & _).
  exists st', d. repeat split; try assumption.
  destruct H6 as (e1 & e2 & ->); [right; reflexivity|reflexivity].
Defined.

(** ** Attribute listings *)

Lemma select_map (keep : list string -> bool) (rs : list (list string)) :
  select (map keep rs) rs = List.filter keep rs.
Proof.
  induction rs as [|r rs IH]; [done|].
  simpl. destruct (keep r); by rewrite IH.
Qed.

Lemma filter_twice {A} (f g : A -> bool) (l : list A) :
  List.filter g (List.filter f l) = List.filter (fun x => f x && g x) l.
Proof.
  induction l as [|x l IH]; [done|].
  simpl. destruct (f x) eqn:Hf; simpl; [destruct (g x)|]; by rewrite ?IH.
Qed.

Lemma drop_matching_restrict (pat : string) (df : DataFrame) (i : nat) :
  index_of "name" (columns df) = Some i ->
  drop_matching pat df =
    Ok (restrict (fun r => negb (contains pat (cell i r))) df).
Proof.
  intros Hi. unfold drop_matching, getitem_column. rewrite Hi.
  unfold getitem_mask, not_str_contains, restrict.
  rewrite map_map. by rewrite (select_map (fun r => negb (contains pat (cell i r)))).
Qed.

Lemma common_spec (name : string) :
  common name = true <-> In name COMMON_ATTRIBUTES.
Proof.
  unfold common. rewrite bool_decide_eq_true. apply list_elem_of_In.
Qed.

(** No name of the allow-list matches an excluded substring. *)
Lemma common_not_excluded (name : string) :
  common name = true -> excluded name = false.
Proof.
  unfold common. intros Hc. apply bool_decide_eq_true in Hc.
  assert (Hall : forallb (fun n => negb (excluded n)) COMMON_ATTRIBUTES = true)
    by reflexivity.
  rewrite forallb_forall in Hall.
  apply list_elem_of_In in Hc. specialize (Hall name Hc).
  by destruct (excluded name).
Qed.

(** What the two attribute listings do once the connection is made. *)
Lemma list_common_attributes_listed (w : World) (mart dataset : string)
    (st : State) (df : DataFrame) (i : nat) :
  connect w (clock st) DEFAULT_HOST = Ok tt ->
  remote_list_attributes w (S (clock st)) mart dataset = Ok df ->
  index_of "name" (columns df) = Some i ->
  snd (list_common_attributes w mart dataset st) =
    Ok (normalize (os_linesep w) (restrict (fun r => common (cell i r)) df)).
Proof.
  intros Hc Hl Hi.
  unfold list_common_attributes, bind, new_server, server_list_attributes, remote.
  simpl. rewrite Hc. simpl. rewrite Hl.
  unfold lift, getitem_column. rewrite Hi. simpl.
  unfold getitem_mask, isin, restrict. rewrite map_map.
  by rewrite (select_map (fun r => common (cell i r))).
Qed.

Lemma list_all_attributes_listed (w : World) (mart dataset : string)
    (st : State) (df : DataFrame) (i : nat) :
  connect w (clock st) DEFAULT_HOST = Ok tt ->
  remote_list_attributes w (S (clock st)) mart dataset = Ok df ->
  index_of "name" (columns df) = Some i ->
  snd (list_all_attributes w mart dataset st) =
    Ok (normalize (os_linesep w) (restrict (fun r => negb (excluded (cell i r))) df)).
Proof.
  intros Hc Hl Hi.
  unfold list_all_attributes, bind, new_server, server_list_attributes, remote.
  simpl. rewrite Hc. simpl. rewrite Hl.
  unfold lift.
  rewrite (drop_matching_restrict "_homolog_" df i Hi).
  rewrite (drop_matching_restrict "dbass" (restrict _ df) i Hi).
  rewrite (drop_matching_restrict "affy_" (restrict _ (restrict _ df)) i Hi).
  rewrite (drop_matching_restrict "agilent_"
             (restrict _ (restrict _ (restrict _ df))) i Hi).
  unfold ret, restrict. simpl. rewrite !filter_twice.
  do 3 f_equal. apply List.filter_ext. intros r.
  unfold excluded. simpl. rewrite orb_false_r.
  destruct (contains "_homolog_" (cell i r)), (contains "dbass" (cell i r)),
    (contains "affy_" (cell i r)), (contains "agilent_" (cell i r)); reflexivity.
Qed.

(** C6.  For a dataset whose attribute table [df] is served (the
    connection and the listing succeed, and [df] has a [name] column):
    [list_common_attributes] returns the text of exactly the records of
    [df] whose name is on the allow-list of 18 names;
    [list_all_attributes] returns the text of exactly the records whose
    name holds none of the four excluded substrings; every record of the
    former is a record of the latter; and no name in the former matches
    an excluded substring. *)
Theorem attribute_listings (w : World) (mart dataset : string)
    (st : State) (df : DataFrame) (i : nat) :
  connect w (clock st) DEFAULT_HOST = Ok tt ->
  remote_list_attributes w (S (clock st)) mart dataset = Ok df ->
  index_of "name" (columns df) = Some i ->
  let commons := restrict (fun r => common (cell i r)) df in
  let alls := restrict (fun r => negb (excluded (cell i r))) df in
  length COMMON_ATTRIBUTES = 18 /\
  snd (list_common_attributes w mart dataset st) =
    Ok (normalize (os_linesep w) commons) /\
  snd (list_all_attributes w mart dataset st) =
    Ok (normalize (os_linesep w) alls) /\
  (forall r, In r (rows df) ->
     (In r (rows commons) <-> In (cell i r) COMMON_ATTRIBUTES) /\
     (In r (rows alls) <->
      forall pat, In pat EXCLUDED_SUBSTRINGS -> contains pat (cell i r) = false)) /\
  (forall r, In r (rows commons) -> In r (rows alls)) /\
  (forall r pat, In r (rows commons) -> In pat EXCLUDED_SUBSTRINGS ->
                 contains pat (cell i r) = false).
Proof.
  intros Hc Hl Hi commons alls.
  assert (Hex : forall name,
             excluded name = false <->
             forall pat, In pat EXCLUDED_SUBSTRINGS -> contains pat name = false).
  { intros name. unfold excluded. split.
    - intros H pat Hpat.
      destruct (contains pat name) eqn:Hp; [|done].
      assert (existsb (fun pat => contains pat name) EXCLUDED_SUBSTRINGS = true)
        by (apply existsb_exists; eauto).
      congruence.
    - intros H. destruct (existsb _ _) eqn:He; [|done].
      apply existsb_exists in He as (pat & Hpat & Hp).
      rewrite (H pat Hpat) in Hp. done. }
  split; [reflexivity|].
  split; [by apply list_common_attributes_listed|].
  split; [by apply list_all_attributes_listed|].
  split; [|split].
  - intros r Hr. unfold commons, alls, restrict. cbn [rows]. rewrite !List.filter_In.
    split.
    + rewrite common_spec. tauto.
    + rewrite <- Hex, negb_true_iff. tauto.
  - intros r. unfold commons, alls, restrict. cbn [rows]. rewrite !List.filter_In.
    intros [Hr Hcm]. split; [done|]. by rewrite (common_not_excluded _ Hcm).
  - intros r pat. unfold commons, restrict. cbn [rows]. rewrite List.filter_In.
    intros [_ Hcm] Hpat. apply (proj1 (Hex _) (common_not_excluded _ Hcm) pat Hpat).
Qed.

Lemma attribute_listings_witness :
  snd (list_common_attributes steady_world MART DATASET initial_state) =
    Ok (normalize newline
          (mkDataFrame ["name"; "display_name"; "description"]
             [ ["ensembl_gene_id"; "Gene stable ID"; "Stable ID of the Gene"];
               ["hgnc_symbol"; "HGNC symbol"; EmptyString] ])) /\
  snd (list_all_attributes steady_world MART DATASET initial_state) =
    Ok (normalize newline
          (mkDataFrame ["name"; "display_name"; "description"]
             [ ["ensembl_gene_id"; "Gene stable ID"; "Stable ID of the Gene"];
               ["hgnc_symbol"; "HGNC symbol"; EmptyString];
               ["go_id"; "GO term accession"; EmptyString] ])).
Proof.
  destruct (attribute_listings steady_world MART DATASET initial_state
              attribute_table 0 eq_refl eq_refl eq_refl)
    as (_ & Hcommon & Hall & _).
  split; [exact Hcommon|exact Hall].
Defined.

(** ** The least-recently-used store *)

Section lru_facts.
Context {K V : Type} `{EqDecision K}.
Implicit Types k x : K.
Implicit Types v : V.
Implicit Types c pre post a b : list (K * V).

Lemma lru_get_None k c : lru_get k c = None <-> k ∉ c.*1.
Proof.
  induction c as [|[k' v'] c IH]; simpl.
  - split; [intros _; apply not_elem_of_nil|done].
  - rewrite not_elem_of_cons. destruct (decide (k = k')); [|tauto].
    split; [done|tauto].
Qed.

Lemma lru_get_skip k pre post :
  k ∉ pre.*1 -> lru_get k (pre ++ post) = lru_get k post.
Proof.
  induction pre as [|[k' v'] pre IH]; [done|]. simpl.
  rewrite not_elem_of_cons. intros [Hne Hpre].
  destruct (decide (k = k')); [done|auto].
Qed.

Lemma lru_get_head k v c : lru_get k ((k, v) :: c) = Some v.
Proof. simpl. by destruct (decide (k = k)). Qed.

Lemma lru_remove_app k a b :
  lru_remove k (a ++ b) = lru_remove k a ++ lru_remove k b.
Proof.
  induction a as [|[k' v'] a IH]; [done|]. simpl.
  destruct (decide (k = k')); by rewrite IH.
Qed.

Lemma lru_remove_keys k c x :
  x ∈ (lru_remove k c).*1 <-> x ∈ c.*1 /\ x <> k.
Proof.
  induction c as [|[k' v'] c IH]; simpl.
  - rewrite elem_of_nil. tauto.
  - destruct (decide (k = k')) as [->|Hne]; simpl.
    + rewrite IH, elem_of_cons. intuition congruence.
    + rewrite !elem_of_cons, IH. intuition congruence.
Qed.

Lemma lru_remove_NoDup k c : NoDup c.*1 -> NoDup (lru_remove k c).*1.
Proof.
  induction c as [|[k' v'] c IH]; [done|]. simpl.
  rewrite NoDup_cons. intros [Hk' Hc].
  destruct (decide (k = k')); [auto|].
  simpl. rewrite NoDup_cons, lru_remove_keys. split; [tauto|auto].
Qed.


Lemma held_get k v seen c : held k v seen c -> lru_get k c = Some v.
Proof.
  intros (pre & post & -> & Hk & _). rewrite lru_get_skip by done.
  apply lru_get_head.
Qed.

Lemma held_first k v seen c : held k v seen ((k, v) :: c).
Proof.
  exists [], c. repeat split; try done.
  - apply not_elem_of_nil.
  - constructor.
  - intros x Hx. by apply elem_of_nil in Hx.
Qed.

Lemma held_step (maxsize : nat) k v seen c k' v' :
  held k v seen c ->
  (k' <> k -> k' ∈ seen) ->
  length (remove_dups seen) < maxsize ->
  held k v seen (lru_step maxsize k' v' c).
Proof.
  intros Hheld Hseen Hsize.
  pose proof (held_get _ _ _ _ Hheld) as Hget.
  destruct Hheld as (pre & post & -> & Hk & Hnd & Hsub).
  unfold lru_step.
  destruct (decide (k' = k)) as [->|Hne].
  - rewrite Hget. apply held_first.
  - destruct (lru_get k' (pre ++ (k, v) :: post)) as [u|] eqn:Hg.
    + unfold lru_hit. rewrite lru_remove_app. simpl.
      destruct (decide (k' = k)) as [?|_]; [done|].
      exists ((k', u) :: lru_remove k' pre), (lru_remove k' post).
      repeat split; try done.
      * simpl. rewrite not_elem_of_cons, lru_remove_keys.
        split; [congruence|tauto].
      * simpl. apply NoDup_cons. rewrite lru_remove_keys.
        split; [tauto|by apply lru_remove_NoDup].
      * simpl. intros x. rewrite elem_of_cons, lru_remove_keys.
        intros [->|[Hx _]]; auto.
    + apply lru_get_None in Hg. rewrite fmap_app, not_elem_of_app in Hg.
      destruct Hg as [Hpre _].
      assert (Hnd' : NoDup ((k', v') :: pre).*1)
        by (simpl; by apply NoDup_cons).
      assert (Hsub' : forall x, x ∈ ((k', v') :: pre).*1 -> x ∈ remove_dups seen).
      { intros x. simpl. rewrite elem_of_cons, elem_of_remove_dups.
        intros [->|Hx]; auto. }
      pose proof (submseteq_length _ _ (NoDup_submseteq _ _ Hnd' Hsub')) as Hlen.
      rewrite length_fmap in Hlen. simpl in Hlen.
      unfold lru_put.
      change ((k', v') :: pre ++ (k, v) :: post)
        with (((k', v') :: pre) ++ (k, v) :: post).
      rewrite take_app_ge by (simpl; lia).
      destruct (maxsize - length ((k', v') :: pre)) as [|m] eqn:Hm;
        [simpl in Hm; lia|].
      simpl take.
      exists ((k', v') :: pre), (take m post).
      repeat split; try done.
      * simpl. rewrite not_elem_of_cons. auto.
      * intros x Hx. apply elem_of_remove_dups. auto.
Qed.
End lru_facts.

(** ** What leaves the translation cache alone *)


Lemma keeps_ret {A} (a : A) : keeps_translations (ret a).
Proof. done. Qed.

Lemma keeps_raise {A} (e : string) : keeps_translations (@raise A e).
Proof. done. Qed.

Lemma keeps_lift {A} (r : result A) : keeps_translations (lift r).
Proof. done. Qed.

Lemma keeps_emit (e : event) : keeps_translations (emit e).
Proof. done. Qed.

Lemma keeps_remote {A} (e : event) (answer : nat -> result A) :
  keeps_translations (remote e answer).
Proof. done. Qed.

Lemma keeps_bind {A B} (m : M A) (k : A -> M B) :
  keeps_translations m -> (forall a, keeps_translations (k a)) ->
  keeps_translations (bind m k).
Proof.
  intros Hm Hk st. unfold bind. specialize (Hm st).
  destruct (m st) as [st' [a|e]]; simpl in *; [|done].
  by rewrite Hk.
Qed.

Lemma keeps_try_except {A} (body : M A) (handler : string -> M A) :
  keeps_translations body -> (forall e, keeps_translations (handler e)) ->
  keeps_translations (try_except body handler).
Proof.
  intros Hm Hk st. unfold try_except. specialize (Hm st).
  destruct (body st) as [st' [a|e]]; simpl in *; [done|].
  by rewrite Hk.
Qed.

Lemma keeps_new_server (w : World) (host : string) :
  keeps_translations (new_server w host).
Proof.
  intros st. unfold new_server, remote. simpl.
  by destruct (connect w (clock st) host).
Qed.

Lemma keeps_get_server (w : World) : keeps_translations (get_server w).
Proof.
  intros st. destruct (get_server w st) as [st' r] eqn:H. simpl.
  by destruct (get_server_trace w st st' r H) as (_ & _ & _ & -> & _).
Qed.

Create HintDb keeps.
#[local] Hint Resolve keeps_ret keeps_raise keeps_lift keeps_emit keeps_remote
  keeps_new_server keeps_get_server : keeps.
#[local] Hint Extern 1 (keeps_translations (bind _ _)) =>
  apply keeps_bind; [|intros ?] : keeps.
#[local] Hint Extern 1 (keeps_translations (try_except _ _)) =>
  apply keeps_try_except; [|intros ?] : keeps.
#[local] Hint Extern 2 (keeps_translations (print_stderr _)) =>
  apply keeps_emit : keeps.
#[local] Hint Extern 2 (keeps_translations (sleep _)) =>
  apply keeps_emit : keeps.

Ltac keeps :=
  unfold fetch_table, server_list_marts, server_list_datasets,
    server_list_attributes, server_list_filters, server_query;
  auto 20 with keeps.

Lemma keeps_fetch_table (w : World) (mart dataset : string)
    (attributes : list string) (filters : gmap string string) :
  keeps_translations (fetch_table w mart dataset attributes filters).
Proof. keeps. Qed.

Lemma keeps_list_marts (w : World) : keeps_translations (list_marts w).
Proof. unfold list_marts. keeps. Qed.

Lemma keeps_list_datasets (w : World) (mart : string) :
  keeps_translations (list_datasets w mart).
Proof. unfold list_datasets. keeps. Qed.

Lemma keeps_list_common_attributes (w : World) (mart dataset : string) :
  keeps_translations (list_common_attributes w mart dataset).
Proof. unfold list_common_attributes. keeps. Qed.

Lemma keeps_list_all_attributes (w : World) (mart dataset : string) :
  keeps_translations (list_all_attributes w mart dataset).
Proof. unfold list_all_attributes. keeps. Qed.

Lemma keeps_list_filters (w : World) (mart dataset : string) :
  keeps_translations (list_filters w mart dataset).
Proof. unfold list_filters. keeps. Qed.

Lemma keeps_get_data_loop (w : World) (mart dataset : string)
    (attributes : list string) (filters : gmap string string)
    (attempts : list nat) :
  keeps_translations (get_data_loop w mart dataset attributes filters attempts).
Proof.
  induction attempts as [|attempt rest IH]; [done|].
  intros st. simpl.
  destruct (get_data_try w mart dataset attributes filters st) as [s1 [text|e]] eqn:Ht;
    destruct (get_data_try_trace _ _ _ _ _ _ _ _ Ht) as (_ & _ & _ & Htc & _);
    [done|].
  rewrite <- Htc.
  assert (Hk : keeps_translations
    (print_stderr (msg_get_data attempt e) >>
     if decide (attempt < MAX_RETRIES - 1)
     then (print_stderr msg_retry >> sleep RETRY_DELAY >>
           get_data_loop w mart dataset attributes filters rest)
     else ret (Some (msg_error e)))); [|apply Hk].
  case_decide; keeps.
Qed.

Lemma keeps_build_mapping (w : World) (mart dataset from_attr to_attr : string) :
  keeps_translations (build_mapping w mart dataset from_attr to_attr).
Proof. unfold build_mapping. keeps. Qed.

Lemma keeps_get_translation_body (w : World) (k : TKey) :
  keeps_translations (get_translation_body w k).
Proof.
  destruct k as [[[[mart dataset] from_attr] to_attr] target].
  unfold get_translation_body.
  apply keeps_try_except; [apply keeps_bind; [apply keeps_build_mapping|]|].
  - intros d. destruct (d !! target); keeps.
  - intros e. keeps.
Qed.

(** ** The translation cache *)

Lemma server_events_queries (st : State) (d : list event) :
  server_events st d -> count_queries d = 0.
Proof. by intros [H|H|e H]. Qed.

Lemma fetch_table_queries (w : World) (mart dataset : string)
    (attributes : list string) (filters : gmap string string)
    (st st' : State) (r : result DataFrame) :
  fetch_table w mart dataset attributes filters st = (st', r) ->
  count_queries (trace st') <= count_queries (trace st) + 1 /\
  (available w st -> count_queries (trace st') = count_queries (trace st) + 1).
Proof.
  unfold fetch_table, bind. intros H.
  destruct (get_server w st) as [s1 [srv|e]] eqn:Hs;
    destruct (get_server_trace w st s1 _ Hs) as (d & Hd & Hev & _).
  - unfold server_query, remote in H. inversion H; subst; clear H. simpl.
    rewrite Hd, !count_queries_app, (server_events_queries st d Hev).
    change (count_queries [EvQuery mart dataset attributes filters]) with 1.
    lia.
  - inversion H; subst; clear H.
    rewrite Hd, !count_queries_app, (server_events_queries st d Hev).
    split; [lia|]. intros Hav.
    destruct (get_server_available w st Hav) as (? & ? & Hok). congruence.
Qed.

Lemma build_mapping_fetch (w : World) (mart dataset from_attr to_attr : string)
    (st : State) :
  trace (fst (build_mapping w mart dataset from_attr to_attr st)) =
  trace (fst (fetch_table w mart dataset [from_attr; to_attr] ∅ st)).
Proof.
  unfold build_mapping, bind, lift, ret.
  destruct (fetch_table _ _ _ _ _ st) as [s1 [df|e]]; [|done].
  by destruct (iloc_column 0 df), (iloc_column 1 df).
Qed.

(** The body of [get_translation] always returns. *)
Lemma get_translation_body_returns (w : World) (k : TKey) (st : State) :
  exists st1 v, get_translation_body w k st = (st1, Ok v).
Proof.
  destruct k as [[[[mart dataset] from_attr] to_attr] target].
  unfold get_translation_body, try_except, bind.
  destruct (build_mapping w mart dataset from_attr to_attr st) as [s1 [d|e]].
  - destruct (d !! target); simpl; eauto.
  - simpl. eauto.
Qed.

Lemma get_translation_body_queries (w : World) (k : TKey) (st : State) :
  let st1 := fst (get_translation_body w k st) in
  count_queries (trace st1) <= count_queries (trace st) + 1 /\
  (available w st -> count_queries (trace st1) = count_queries (trace st) + 1).
Proof.
  destruct k as [[[[mart dataset] from_attr] to_attr] target]. simpl.
  pose proof (build_mapping_fetch w mart dataset from_attr to_attr st) as Hb.
  destruct (fetch_table w mart dataset [from_attr; to_attr] ∅ st) as [sf rf] eqn:Hf.
  pose proof (fetch_table_queries _ _ _ _ _ _ _ _ Hf) as Hq. simpl in Hb.
  assert (Ht : count_queries (trace (fst (get_translation_body w
                 (mart, dataset, from_attr, to_attr, target) st))) =
               count_queries (trace sf)).
  { rewrite <- Hb. unfold get_translation_body, try_except, bind.
    destruct (build_mapping w mart dataset from_attr to_attr st) as [s1 [d|e]];
      [destruct (d !! target)|]; simpl; rewrite ?count_queries_stderr; done. }
  simpl in Ht. rewrite Ht. exact Hq.
Qed.

Lemma get_translation_key_hit (w : World) (k : TKey) (st : State) (v : string) :
  lru_get k (translation_cache st) = Some v ->
  get_translation_key w k st =
    (set_translation_cache (lru_hit k v (translation_cache st)) st, Ok v).
Proof. intros H. unfold get_translation_key, lru_cache. by rewrite H. Qed.

Lemma get_translation_key_miss (w : World) (k : TKey) (st st1 : State)
    (v : string) :
  lru_get k (translation_cache st) = None ->
  get_translation_body w k st = (st1, Ok v) ->
  get_translation_key w k st =
    (set_translation_cache (lru_put 1000 k v (translation_cache st)) st1, Ok v).
Proof.
  intros H Hb. unfold get_translation_key, lru_cache. rewrite H, Hb.
  pose proof (keeps_get_translation_body w k st) as Hk. rewrite Hb in Hk.
  simpl in Hk. by rewrite Hk.
Qed.

(** Every call of [get_translation] returns a string, and leaves its
    key at the head of the store, bound to that string. *)
Lemma get_translation_key_stores (w : World) (k : TKey) (st : State) :
  exists st' v c,
    get_translation_key w k st = (st', Ok v) /\
    translation_cache st' = (k, v) :: c /\
    translation_cache st' = lru_step 1000 k v (translation_cache st) /\
    count_queries (trace st') <= count_queries (trace st) + 1.
Proof.
  destruct (lru_get k (translation_cache st)) as [v|] eqn:Hg.
  - exists (set_translation_cache (lru_hit k v (translation_cache st)) st), v,
      (lru_remove k (translation_cache st)).
    rewrite (get_translation_key_hit w k st v Hg). unfold lru_step. rewrite Hg.
    repeat split; simpl; lia.
  - destruct (get_translation_body_returns w k st) as (st1 & v & Hb).
    exists (set_translation_cache (lru_put 1000 k v (translation_cache st)) st1), v,
      (take 999 (translation_cache st)).
    rewrite (get_translation_key_miss w k st st1 v Hg Hb). unfold lru_step. rewrite Hg.
    repeat split; try done. simpl.
    pose proof (get_translation_body_queries w k st) as [Hq _].
    by rewrite Hb in Hq.
Qed.

Lemma call_get_translation (w : World) (k : TKey) (st : State) :
  call w (translation_call k) st =
    (fst (get_translation_key w k st),
     match snd (get_translation_key w k st) with
     | Ok v => Ok (Some v)
     | Raise e => Raise e
     end).
Proof.
  destruct k as [[[[mart dataset] from_attr] to_attr] target]. simpl.
  unfold some, bind, get_translation, ret.
  by destruct (get_translation_key w _ st) as [st' [v|e]].
Qed.

Lemma keeps_some {A} (m : M A) : keeps_translations m -> keeps_translations (some m).
Proof. intros Hm. unfold some. auto with keeps. Qed.

(** One tool call keeps a held entry in the store, as long as fewer
    than 1000 different other keys are in play. *)
Lemma held_call (w : World) (t : tool) (st : State) (k : TKey) (v : string)
    (seen : list TKey) :
  held k v seen (translation_cache st) ->
  (forall k', k' ∈ translation_keys [t] -> k' <> k -> k' ∈ seen) ->
  length (remove_dups seen) < 1000 ->
  held k v seen (translation_cache (fst (call w t st))).
Proof.
  intros Hheld Hseen Hsize.
  destruct t as [|mart|mart dataset|mart dataset|mart dataset
                 |mart dataset attributes filters
                 |mart dataset from_attr to_attr target].
  - simpl. by rewrite (keeps_some _ (keeps_list_marts w)).
  - simpl. by rewrite (keeps_some _ (keeps_list_datasets w mart)).
  - simpl. by rewrite (keeps_some _ (keeps_list_common_attributes w mart dataset)).
  - simpl. by rewrite (keeps_some _ (keeps_list_all_attributes w mart dataset)).
  - simpl. by rewrite (keeps_some _ (keeps_list_filters w mart dataset)).
  - simpl. unfold get_data. by rewrite keeps_get_data_loop.
  - change (GetTranslation mart dataset from_attr to_attr target)
      with (translation_call (mart, dataset, from_attr, to_attr, target)).
    rewrite call_get_translation. simpl fst.
    destruct (get_translation_key_stores w
                (mart, dataset, from_attr, to_attr, target) st)
      as (st' & v' & c & Hcall & _ & Hstep & _).
    rewrite Hcall. simpl fst. rewrite Hstep.
    apply held_step; [done| |done].
    intros Hne. apply Hseen; [|done]. simpl. by apply list_elem_of_singleton.
Qed.

Lemma translation_keys_app (ts1 ts2 : list tool) :
  translation_keys (ts1 ++ ts2) = translation_keys ts1 ++ translation_keys ts2.
Proof.
  induction ts1 as [|t ts1 IH]; [done|].
  destruct t; simpl; by rewrite ?IH.
Qed.

Lemma held_run_calls (w : World) (ts : list tool) (k : TKey) (v : string)
    (seen : list TKey) :
  (forall k', k' ∈ translation_keys ts -> k' <> k -> k' ∈ seen) ->
  length (remove_dups seen) < 1000 ->
  forall st,
    held k v seen (translation_cache st) ->
    held k v seen (translation_cache (fst (run_calls w ts st))).
Proof.
  intros Hseen Hsize.
  induction ts as [|t ts IH]; intros st Hheld; [done|].
  simpl. destruct (call w t st) as [st1 r] eqn:Hc.
  destruct (run_calls w ts st1) as [st2 rs] eqn:Hr. simpl.
  replace st2 with (fst (run_calls w ts st1)) by (by rewrite Hr).
  apply IH.
  - intros k' Hk'. apply Hseen.
    change (t :: ts) with ([t] ++ ts). rewrite translation_keys_app.
    apply elem_of_app. by right.
  - replace st1 with (fst (call w t st)) by (by rewrite Hc).
    apply held_call; [done| |done].
    intros k' Hk'. apply Hseen.
    change (t :: ts) with ([t] ++ ts). rewrite translation_keys_app.
    apply elem_of_app. by left.
Qed.

(** C10, as the code has it.  Once a call of [get_translation] has
    returned (it always returns a string: a translated value, the
    target-not-found text or an error text), a later call with the same
    five arguments returns that very string and changes nothing but the
    recency order of the cache: no connection, no remote query, no log
    line.  This holds whatever tools are called in between, provided the
    [get_translation] calls in between use fewer than 1000 different
    other argument tuples, so that the entry is not evicted from the
    1000-entry least-recently-used store. *)
Theorem get_translation_replays (w : World)
    (mart dataset from_attr to_attr target : string)
    (st st1 st2 : State) (r : result string)
    (ts : list tool) (rs : list (result (option string))) :
  get_translation w mart dataset from_attr to_attr target st = (st1, r) ->
  run_calls w ts st1 = (st2, rs) ->
  length (remove_dups
            (filter (fun k' => k' <> (mart, dataset, from_attr, to_attr, target))
                    (translation_keys ts))) < 1000 ->
  exists s c,
    r = Ok s /\
    get_translation w mart dataset from_attr to_attr target st2 =
      (set_translation_cache c st2, Ok s).
Proof.
  intros Hfirst Hrun Hsize. unfold get_translation in *.
  set (k := (mart, dataset, from_attr, to_attr, target)) in *.
  destruct (get_translation_key_stores w k st) as (st' & s & c & Hcall & Hhead & _).
  rewrite Hcall in Hfirst. inversion Hfirst; subst st' r; clear Hfirst.
  set (seen := filter (fun k' => k' <> k) (translation_keys ts)) in *.
  assert (Hheld : held k s seen (translation_cache st2)).
  { replace st2 with (fst (run_calls w ts st1)) by (by rewrite Hrun).
    apply held_run_calls; [|done|].
    - intros k' Hk' Hne. apply list_elem_of_filter. done.
    - rewrite Hhead. apply held_first. }
  exists s, (lru_hit k s (translation_cache st2)).
  split; [done|].
  apply get_translation_key_hit. by apply (held_get k s seen).
Qed.

Lemma get_translation_replays_witness :
  exists s c st2,
    fst (run_calls steady_world [ask "TP53"; ListMarts; ask "BRCA1"] initial_state) = st2 /\
    get_translation steady_world MART DATASET "hgnc_symbol" "ensembl_gene_id"
                    "TP53" st2 = (set_translation_cache c st2, Ok s).
Proof.
  destruct (get_translation_replays steady_world MART DATASET "hgnc_symbol"
              "ensembl_gene_id" "TP53" initial_state _ _ _
              [ListMarts; ask "BRCA1"] _ eq_refl eq_refl)
    as (s & c & _ & Hcall).
  - vm_compute. lia.
  - exists s, c. eexists. split; [reflexivity|exact Hcall].
Defined.

(** C10 as stated fails: after a thousand calls with other targets the
    first entry has been evicted, and the repeated call with the very
    same five arguments issues a remote query again. *)
Lemma get_translation_replays_counterexample :
  let first := GetTranslation "m" "d" "a" "b" "TP53" in
  let st1 := fst (run_calls steady_world (first :: thousand_asks) initial_state) in
  lru_get ("m", "d", "a", "b", "TP53") (translation_cache st1) = None /\
  count_queries (trace st1) = 1001 /\
  count_queries (trace (fst (call steady_world first st1))) = 1002.
Proof. vm_compute. done. Qed.

Lemma repeated_calls_hit (w : World) (k : TKey) (v : string) (n : nat) :
  forall (st : State) (c : list (TKey * string)),
    translation_cache st = (k, v) :: c ->
    exists c',
      run_calls w (replicate n (translation_call k)) st =
        (set_translation_cache ((k, v) :: c') st, replicate n (Ok (Some v))).
Proof.
  induction n as [|n IH]; intros st c Hc.
  - exists c. simpl. rewrite <- Hc. by destruct st.
  - simpl. rewrite call_get_translation.
    assert (Hg : lru_get k (translation_cache st) = Some v)
      by (rewrite Hc; apply lru_get_head).
    rewrite (get_translation_key_hit w k st v Hg). simpl fst. simpl snd.
    destruct (IH (set_translation_cache (lru_hit k v (translation_cache st)) st)
                 (lru_remove k (translation_cache st)) eq_refl) as (c' & Hrun).
    rewrite Hrun. exists c'. reflexivity.
Qed.

Lemma get_translation_key_queries (w : World) (k : TKey) (st : State) :
  lru_get k (translation_cache st) = None ->
  available w st ->
  count_queries (trace (fst (get_translation_key w k st))) =
    count_queries (trace st) + 1.
Proof.
  intros Hg Hav.
  destruct (get_translation_body_returns w k st) as (st1 & v & Hb).
  rewrite (get_translation_key_miss w k st st1 v Hg Hb). simpl.
  pose proof (get_translation_body_queries w k st) as [_ Hq].
  rewrite Hb in Hq. by apply Hq.
Qed.

(** C1, as the code has it.  The cache of [get_translation] stores the
    returned string under the key made of all five arguments, [target]
    included.  So any run of calls that share all five arguments issues
    at most one remote query, and exactly one when the first call finds
    no entry and can get a connection; every call after the first is a
    cache hit that returns the same string and adds no event at all. *)
Theorem translation_cache_key (w : World)
    (mart dataset from_attr to_attr target : string) (n : nat)
    (st st' : State) (rs : list (result (option string))) :
  let k := (mart, dataset, from_attr, to_attr, target) in
  let t := GetTranslation mart dataset from_attr to_attr target in
  run_calls w (replicate (S n) t) st = (st', rs) ->
  exists s,
    rs = replicate (S n) (Ok (Some s)) /\
    lru_get k (translation_cache st') = Some s /\
    trace st' = trace (fst (call w t st)) /\
    count_queries (trace st') <= count_queries (trace st) + 1 /\
    (lru_get k (translation_cache st) = None -> available w st ->
     count_queries (trace st') = count_queries (trace st) + 1).
Proof.
  intros k t Hrun.
  change t with (translation_call k) in *.
  change (replicate (S n) (translation_call k))
    with (translation_call k :: replicate n (translation_call k)) in Hrun.
  cbn [run_calls] in Hrun. rewrite call_get_translation in *.
  destruct (get_translation_key_stores w k st) as (st1 & s & c & Hcall & Hhead & _ & Hq).
  pose proof (get_translation_key_queries w k st) as Hexact.
  rewrite Hcall in *. simpl fst in *. simpl snd in *.
  destruct (repeated_calls_hit w k s n st1 c Hhead) as (c' & Hrest).
  rewrite Hrest in Hrun. inversion Hrun; subst st' rs; clear Hrun.
  exists s. simpl. destruct (decide (k = k)); [|done].
  repeat split; try done.
Qed.

Lemma translation_cache_key_witness :
  exists s st',
    run_calls steady_world (replicate 3 (ask "TP53")) initial_state =
      (st', replicate 3 (Ok (Some s))) /\
    count_queries (trace st') = 1.
Proof.
  destruct (translation_cache_key steady_world MART DATASET "hgnc_symbol"
              "ensembl_gene_id" "TP53" 2 initial_state _ _ eq_refl)
    as (s & Hrs & _ & _ & _ & Hexact).
  exists s. eexists. split.
  - unfold ask. rewrite <- Hrs. reflexivity.
  - apply Hexact; [reflexivity|right; reflexivity].
Defined.

(** C1 as stated fails: two calls that share the four-tuple and differ
    in [target] issue two remote queries, not one. *)
Lemma translation_cache_key_counterexample :
  count_queries
    (trace (fst (run_calls steady_world [ask "TP53"; ask "BRCA1"] initial_state)))
  = 2.
Proof. reflexivity. Qed.

(** C3, as the code has it.  When a call of [get_translation] that
    finds no cache entry fails while building the mapping (the
    connection, the query or the shape of the answer), it returns the
    text [Error: <message>]; that text is a normal return value, so the
    decorator stores it under the five arguments, and the next call with
    the same arguments returns the stored text without any connection or
    remote query. *)
Theorem translation_failure_is_cached (w : World)
    (mart dataset from_attr to_attr target : string)
    (st st1 : State) (e : string) :
  let k := (mart, dataset, from_attr, to_attr, target) in
  lru_get k (translation_cache st) = None ->
  build_mapping w mart dataset from_attr to_attr st = (st1, Raise e) ->
  exists st2 c,
    get_translation w mart dataset from_attr to_attr target st =
      (st2, Ok (msg_error e)) /\
    lru_get k (translation_cache st2) = Some (msg_error e) /\
    get_translation w mart dataset from_attr to_attr target st2 =
      (set_translation_cache c st2, Ok (msg_error e)).
Proof.
  intros k Hmiss Hbuild. unfold get_translation. fold k.
  assert (Hbody : get_translation_body w k st =
            (fst (print_stderr (msg_translation e) st1), Ok (msg_error e))).
  { unfold k, get_translation_body, try_except, bind. by rewrite Hbuild. }
  rewrite (get_translation_key_miss w k st _ _ Hmiss Hbody).
  eexists _, _. split; [reflexivity|].
  assert (Hget : lru_get k (translation_cache
            (set_translation_cache (lru_put 1000 k (msg_error e) (translation_cache st))
               (fst (print_stderr (msg_translation e) st1)))) = Some (msg_error e))
    by apply lru_get_head.
  split; [exact Hget|].
  apply (get_translation_key_hit w k _ _ Hget).
Qed.

Lemma translation_failure_is_cached_witness :
  exists st2 c,
    get_translation (flaky_world 1) MART DATASET "hgnc_symbol" "ensembl_gene_id"
                    "TP53" initial_state =
      (st2, Ok "Error: remote host timed out") /\
    get_translation (flaky_world 1) MART DATASET "hgnc_symbol" "ensembl_gene_id"
                    "TP53" st2 =
      (set_translation_cache c st2, Ok "Error: remote host timed out").
Proof.
  destruct (translation_failure_is_cached (flaky_world 1) MART DATASET
              "hgnc_symbol" "ensembl_gene_id" "TP53" initial_state _
              "remote host timed out" eq_refl eq_refl)
    as (st2 & c & H1 & _ & H2).
  exists st2, c. split; [exact H1|exact H2].
Defined.

(** C3 as stated fails: the first call fails at instant 1; a query made
    at instant 2 would succeed, yet the second call replays the stored
    error text and issues no query. *)
Lemma translation_failure_is_cached_counterexample :
  let run := run_calls (flaky_world 1) [ask "TP53"; ask "TP53"] initial_state in
  snd run = [ Ok (Some "Error: remote host timed out");
              Ok (Some "Error: remote host timed out") ] /\
  count_queries (trace (fst run)) = 1 /\
  remote_query (flaky_world 1) 2 MART DATASET ["hgnc_symbol"; "ensembl_gene_id"] ∅
    = Ok gene_table.
Proof. repeat split. Qed.

(** ** The mapping of [get_translation] *)

Lemma foldl_insert_lookup_notin (pairs : list (string * string))
    (m : gmap string string) (x : string) :
  x ∉ pairs.*1 ->
  foldl (fun d kv => <[kv.1 := kv.2]> d) m pairs !! x = m !! x.
Proof.
  revert m. induction pairs as [|[a b] pairs IH]; intros m Hx; [done|].
  simpl in *. apply not_elem_of_cons in Hx as [Hne Hx].
  rewrite IH by done. by apply lookup_insert_ne.
Qed.

(** Last write wins: a from-value is bound to the to-value of its last
    occurrence. *)
Lemma dict_last_wins (l1 l2 : list (string * string)) (x y : string) :
  x ∉ l2.*1 -> dict (l1 ++ (x, y) :: l2) !! x = Some y.
Proof.
  intros Hx. unfold dict. rewrite foldl_app. simpl.
  rewrite foldl_insert_lookup_notin by done. apply lookup_insert_eq.
Qed.

Lemma foldl_insert_lookup_None (pairs : list (string * string))
    (m : gmap string string) (x : string) :
  foldl (fun d kv => <[kv.1 := kv.2]> d) m pairs !! x = None <->
  m !! x = None /\ x ∉ pairs.*1.
Proof.
  revert m. induction pairs as [|[a b] pairs IH]; intros m; simpl.
  - split; [intros H; split; [done|apply not_elem_of_nil]|tauto].
  - rewrite IH, not_elem_of_cons. destruct (decide (a = x)) as [->|Hne].
    + rewrite lookup_insert_eq. split; [intros [? _]; done|intros [_ [? _]]; done].
    + rewrite lookup_insert_ne by done. split; [intros [? ?]|intros [? [_ ?]]]; auto.
Qed.

Lemma dict_lookup_None (pairs : list (string * string)) (x : string) :
  dict pairs !! x = None <-> x ∉ pairs.*1.
Proof.
  unfold dict. rewrite foldl_insert_lookup_None, lookup_empty. tauto.
Qed.

(** C8.  When the two-column query succeeds with a table [df] of at
    least two columns, the mapping is the dictionary of the pairs of its
    first two columns, in which a from-value that occurs several times
    is bound to the to-value of its last occurrence; a [target] that is
    a key makes [get_translation] return the bare value bound to it; an
    absent [target] makes it return the text
    [Error: Target '<target>' not found], as a normal return. *)
Theorem translation_lookup (w : World)
    (mart dataset from_attr to_attr target : string)
    (st st1 : State) (df : DataFrame) :
  let k := (mart, dataset, from_attr, to_attr, target) in
  let pairs := zip (map (cell 0) (rows df)) (map (cell 1) (rows df)) in
  lru_get k (translation_cache st) = None ->
  fetch_table w mart dataset [from_attr; to_attr] ∅ st = (st1, Ok df) ->
  2 <= length (columns df) ->
  build_mapping w mart dataset from_attr to_attr st = (st1, Ok (dict pairs)) /\
  (forall l1 l2 x y,
     pairs = l1 ++ (x, y) :: l2 -> x ∉ l2.*1 -> dict pairs !! x = Some y) /\
  (forall y, dict pairs !! target = Some y ->
     exists st2,
       get_translation w mart dataset from_attr to_attr target st = (st2, Ok y)) /\
  (target ∉ pairs.*1 ->
     exists st2,
       get_translation w mart dataset from_attr to_attr target st =
         (st2, Ok ("Error: Target '" +:+ target +:+ "' not found"))).
Proof.
  intros k pairs Hmiss Hfetch Hcols.
  assert (Hbuild : build_mapping w mart dataset from_attr to_attr st =
                     (st1, Ok (dict pairs))).
  { unfold build_mapping, bind, lift, ret, iloc_column. rewrite Hfetch.
    destruct (decide (0 < length (columns df))); [|lia].
    destruct (decide (1 < length (columns df))); [|lia]. reflexivity. }
  split; [exact Hbuild|]. split; [|split].
  - intros l1 l2 x y -> Hx. by apply dict_last_wins.
  - intros y Hy. unfold get_translation. fold k.
    assert (Hbody : get_translation_body w k st = (st1, Ok y)).
    { unfold k, get_translation_body, try_except, bind. by rewrite Hbuild, Hy. }
    rewrite (get_translation_key_miss w k st _ _ Hmiss Hbody). eauto.
  - intros Habsent. apply dict_lookup_None in Habsent.
    unfold get_translation. fold k.
    assert (Hbody : get_translation_body w k st =
              (fst (print_stderr (msg_target_log target) st1), Ok (msg_target target))).
    { unfold k, get_translation_body, try_except, bind. by rewrite Hbuild, Habsent. }
    rewrite (get_translation_key_miss w k st _ _ Hmiss Hbody). eauto.
Qed.

Lemma translation_lookup_witness :
  (exists st2,
     get_translation steady_world MART DATASET "hgnc_symbol" "ensembl_gene_id"
                     "TP53" initial_state = (st2, Ok "ENSG00000999999")) /\
  (exists st2,
     get_translation steady_world MART DATASET "hgnc_symbol" "ensembl_gene_id"
                     "KRAS" initial_state =
       (st2, Ok "Error: Target 'KRAS' not found")).
Proof.
  split.
  - destruct (translation_lookup steady_world MART DATASET "hgnc_symbol"
                "ensembl_gene_id" "TP53" initial_state _ gene_table
                eq_refl eq_refl) as (_ & _ & Hfound & _).
    + simpl. lia.
    + apply Hfound. reflexivity.
  - destruct (translation_lookup steady_world MART DATASET "hgnc_symbol"
                "ensembl_gene_id" "KRAS" initial_state _ gene_table
                eq_refl eq_refl) as (_ & _ & _ & Habsent).
    + simpl. lia.
    + apply Habsent. vm_compute. intros H.
      repeat (apply elem_of_cons in H as [H|H]; [discriminate H|]).
      by apply elem_of_nil in H.
Defined.

(** ** Which faults reach the caller *)

Lemma try_except_returns {A} (body : M A) (handler : string -> M A) (st : State) :
  (forall e st1, exists st2 a, handler e st1 = (st2, Ok a)) ->
  exists st' a, try_except body handler st = (st', Ok a).
Proof.
  intros Hh. unfold try_except.
  destruct (body st) as [st1 [a|e]]; [eauto|apply Hh].
Qed.

Lemma list_marts_returns (w : World) (st : State) :
  exists st' s, list_marts w st = (st', Ok s).
Proof. apply try_except_returns. intros e st1. simpl. eauto. Qed.

Lemma list_datasets_returns (w : World) (mart : string) (st : State) :
  exists st' s, list_datasets w mart st = (st', Ok s).
Proof. apply try_except_returns. intros e st1. simpl. eauto. Qed.

Lemma get_translation_returns (w : World)
    (mart dataset from_attr to_attr target : string) (st : State) :
  exists st' s,
    get_translation w mart dataset from_attr to_attr target st = (st', Ok s).
Proof.
  destruct (get_translation_key_stores w
              (mart, dataset, from_attr, to_attr, target) st)
    as (st' & s & _ & Hcall & _).
  eauto.
Qed.

(** [get_data] always returns a string: it neither raises nor falls out
    of its loop. *)
Lemma get_data_returns (w : World) (mart dataset : string)
    (attributes : list string) (filters : gmap string string) (st : State) :
  exists st' s, get_data w mart dataset attributes filters st = (st', Ok (Some s)).
Proof.
  unfold get_data. simpl.
  destruct (get_data_try w mart dataset attributes filters st) as [s1 [t|e1]];
    [eauto|].
  unfold bind at 1 2 3. simpl.
  destruct (get_data_try w mart dataset attributes filters _) as [s2 [t|e2]];
    [eauto|].
  unfold bind at 1 2 3. simpl.
  destruct (get_data_try w mart dataset attributes filters _) as [s3 [t|e3]];
    [eauto|].
  unfold bind. simpl. eauto.
Qed.

(** The three listings that build their own connection raise whatever
    the connection attempt raises, cached connection or not. *)
Lemma own_connection_failure_raises (w : World) (mart dataset : string)
    (st : State) (e : string) :
  connect w (clock st) DEFAULT_HOST = Raise e ->
  snd (list_common_attributes w mart dataset st) = Raise e /\
  snd (list_all_attributes w mart dataset st) = Raise e /\
  snd (list_filters w mart dataset st) = Raise e.
Proof.
  intros Hc.
  unfold list_common_attributes, list_all_attributes, list_filters, bind,
    new_server, remote.
  simpl. by rewrite Hc.
Qed.

(** They raise as well when the listing itself fails (an unknown mart or
    dataset, a network fault). *)
Lemma own_listing_failure_raises (w : World) (mart dataset : string)
    (st : State) (e : string) :
  connect w (clock st) DEFAULT_HOST = Ok tt ->
  (remote_list_attributes w (S (clock st)) mart dataset = Raise e ->
   snd (list_common_attributes w mart dataset st) = Raise e /\
   snd (list_all_attributes w mart dataset st) = Raise e) /\
  (remote_list_filters w (S (clock st)) mart dataset = Raise e ->
   snd (list_filters w mart dataset st) = Raise e).
Proof.
  intros Hc.
  unfold list_common_attributes, list_all_attributes, list_filters, bind,
    new_server, server_list_attributes, server_list_filters, remote.
  simpl. rewrite Hc. simpl. split; intros ->; done.
Qed.

(** C2, as the code has it.  [list_marts], [list_datasets], [get_data]
    and [get_translation] never let a fault reach the caller: they
    always return a string, and a connection failure met while no
    connection is cached (the very first establishment included) comes
    back from [list_marts], [list_datasets] and [get_translation] as the
    text [Error: <message>].  [list_common_attributes],
    [list_all_attributes] and [list_filters] have no handler: a
    connection failure in them reaches the caller as a raised fault with
    the same message. *)
Theorem fault_policy (w : World) (st : State) :
  (exists st' s, list_marts w st = (st', Ok s)) /\
  (forall mart, exists st' s, list_datasets w mart st = (st', Ok s)) /\
  (forall mart dataset attributes filters,
     exists st' s,
       get_data w mart dataset attributes filters st = (st', Ok (Some s))) /\
  (forall mart dataset from_attr to_attr target,
     exists st' s,
       get_translation w mart dataset from_attr to_attr target st = (st', Ok s)) /\
  (forall e,
     server_cache st = [] ->
     connect w (clock st) DEFAULT_HOST = Raise e ->
     snd (list_marts w st) = Ok (msg_error e) /\
     (forall mart, snd (list_datasets w mart st) = Ok (msg_error e)) /\
     (forall mart dataset from_attr to_attr target,
        lru_get (mart, dataset, from_attr, to_attr, target)
                (translation_cache st) = None ->
        snd (get_translation w mart dataset from_attr to_attr target st) =
          Ok (msg_error e))) /\
  (forall e mart dataset,
     connect w (clock st) DEFAULT_HOST = Raise e ->
     snd (list_common_attributes w mart dataset st) = Raise e /\
     snd (list_all_attributes w mart dataset st) = Raise e /\
     snd (list_filters w mart dataset st) = Raise e).
Proof.
  split; [apply list_marts_returns|].
  split; [intros; apply list_datasets_returns|].
  split; [intros; apply get_data_returns|].
  split; [intros; apply get_translation_returns|].
  split.
  - intros e Hcache Hconn.
    pose proof (get_server_fails w st e Hcache Hconn) as Hs.
    split; [|split].
    + unfold list_marts, try_except, bind. by rewrite Hs.
    + intros mart. unfold list_datasets, try_except, bind. by rewrite Hs.
    + intros mart dataset from_attr to_attr target Hmiss.
      unfold get_translation.
      erewrite get_translation_key_miss; [reflexivity|exact Hmiss|].
      unfold get_translation_body, try_except, build_mapping, fetch_table, bind.
      rewrite Hs. reflexivity.
  - intros e mart dataset. apply own_connection_failure_raises.
Qed.

Lemma fault_policy_witness :
  snd (list_marts unreachable_world initial_state) = Ok "Error: host unreachable" /\
  snd (list_filters unreachable_world MART DATASET initial_state) =
    Raise "host unreachable".
Proof.
  destruct (fault_policy unreachable_world initial_state)
    as (_ & _ & _ & _ & Hinline & Hraise).
  destruct (Hinline "host unreachable" eq_refl eq_refl) as (Hmarts & _).
  destruct (Hraise "host unreachable" MART DATASET eq_refl) as (_ & _ & Hfilters).
  split; [exact Hmarts|exact Hfilters].
Defined.

(** C2 as stated fails, in both directions.  A fault that is no
    connection failure reaches the caller of [list_filters]: the host
    accepts the connection and the mart is unknown.  And the failure of
    the very first connection does not reach the caller of [list_marts],
    a listing tool: it is returned as text. *)
Lemma fault_policy_counterexample :
  connect empty_world 0 DEFAULT_HOST = Ok tt /\
  snd (call empty_world (ListFilters "NO_SUCH_MART" DATASET) initial_state) =
    Raise "'NO_SUCH_MART'" /\
  is_listing ListMarts = true /\
  count_connects (trace initial_state) = 0 /\
  snd (call unreachable_world ListMarts initial_state) =
    Ok (Some "Error: host unreachable").
Proof. repeat split. Qed.

(** ** Who uses the connection cache *)

(** Each of the three attribute and filter listings opens a connection
    on every call, whatever the connection cache holds. *)
Lemma own_connection_every_call (w : World) (mart dataset : string) (st : State) :
  count_connects (trace (fst (list_common_attributes w mart dataset st))) =
    S (count_connects (trace st)) /\
  count_connects (trace (fst (list_all_attributes w mart dataset st))) =
    S (count_connects (trace st)) /\
  count_connects (trace (fst (list_filters w mart dataset st))) =
    S (count_connects (trace st)).
Proof.
  assert (Hone : forall tr, count_connects (tr ++ [EvConnect DEFAULT_HOST]) =
                            S (count_connects tr)).
  { intros tr. rewrite count_connects_app.
    change (count_connects [EvConnect DEFAULT_HOST]) with 1. lia. }
  assert (Hattr : forall tr, count_connects (tr ++ [EvListAttributes mart dataset]) =
                             count_connects tr).
  { intros tr. rewrite count_connects_app.
    change (count_connects [EvListAttributes mart dataset]) with 0. lia. }
  assert (Hfilt : forall tr, count_connects (tr ++ [EvListFilters mart dataset]) =
                             count_connects tr).
  { intros tr. rewrite count_connects_app.
    change (count_connects [EvListFilters mart dataset]) with 0. lia. }
  unfold list_common_attributes, list_all_attributes, list_filters, bind,
    new_server, server_list_attributes, server_list_filters, remote, lift, ret.
  simpl.
  destruct (connect w (clock st) DEFAULT_HOST) as [[]|e]; simpl; [|by rewrite Hone].
  repeat split.
  - destruct (remote_list_attributes w (S (clock st)) mart dataset) as [df|e];
      simpl; [|by rewrite Hattr, Hone].
    destruct (getitem_column "name" df); simpl; by rewrite Hattr, Hone.
  - destruct (remote_list_attributes w (S (clock st)) mart dataset) as [df|e];
      simpl; [|by rewrite Hattr, Hone].
    destruct (drop_matching "_homolog_" df) as [df1|]; simpl; [|by rewrite Hattr, Hone].
    destruct (drop_matching "dbass" df1) as [df2|]; simpl; [|by rewrite Hattr, Hone].
    destruct (drop_matching "affy_" df2) as [df3|]; simpl; [|by rewrite Hattr, Hone].
    destruct (drop_matching "agilent_" df3); simpl; by rewrite Hattr, Hone.
  - destruct (remote_list_filters w (S (clock st)) mart dataset); simpl;
      by rewrite Hfilt, Hone.
Qed.

(** C7 does not hold of the code.  After [list_marts] has established
    and cached the connection, [list_datasets] reuses it, but each of
    [list_common_attributes], [list_all_attributes] and [list_filters]
    establishes a second connection to the same host. *)
Theorem listing_bypasses_connection_cache :
  let st1 := fst (list_marts steady_world initial_state) in
  server_cache st1 <> [] /\
  count_connects (trace st1) = 1 /\
  count_connects (trace (fst (list_datasets steady_world MART st1))) = 1 /\
  count_connects (trace (fst (list_common_attributes steady_world MART DATASET st1))) = 2 /\
  count_connects (trace (fst (list_all_attributes steady_world MART DATASET st1))) = 2 /\
  count_connects (trace (fst (list_filters steady_world MART DATASET st1))) = 2.
Proof. repeat split; try reflexivity. intros H. discriminate H. Qed.

(** ** The returned text *)

#[local] Arguments String.append !_ _ / : simpl nomatch.
#[local] Arguments Ascii.eqb : simpl never.

Lemma string_app_assoc (a b c : string) : (a +:+ b) +:+ c = a +:+ (b +:+ c).
Proof. induction a as [|x a IH]; [done|]. simpl. by rewrite IH. Qed.

Lemma string_app_nil_r (a : string) : a +:+ EmptyString = a.
Proof. induction a as [|x a IH]; [done|]. simpl. by rewrite IH. Qed.

Lemma remove_cr_app (a b : string) :
  remove_cr (a +:+ b) = remove_cr a +:+ remove_cr b.
Proof.
  induction a as [|x a IH]; [done|]. simpl.
  destruct (Ascii.eqb x CR); simpl; by rewrite IH.
Qed.

(** The text left by [remove_cr] holds no carriage return. *)
Lemma remove_cr_free (s : string) : mem_char CR (remove_cr s) = false.
Proof.
  induction s as [|x s IH]; [done|]. simpl.
  destruct (Ascii.eqb x CR) eqn:E; [done|]. simpl.
  rewrite Ascii.eqb_sym, E. exact IH.
Qed.

Lemma remove_cr_id (s : string) : cr_free s = true -> remove_cr s = s.
Proof.
  unfold cr_free. induction s as [|x s IH]; [done|]. simpl.
  rewrite negb_true_iff, orb_false_iff, Ascii.eqb_sym. intros [-> Hs].
  by rewrite IH by (by rewrite negb_true_iff).
Qed.

Lemma cr_free_cons (x : ascii) (s : string) :
  cr_free (String x s) = true <-> Ascii.eqb x CR = false /\ cr_free s = true.
Proof.
  unfold cr_free. simpl.
  by rewrite !negb_true_iff, orb_false_iff, (Ascii.eqb_sym CR x).
Qed.

Lemma cr_free_app (a b : string) :
  cr_free a = true -> cr_free b = true -> cr_free (a +:+ b) = true.
Proof.
  intros Ha Hb. induction a as [|x a IH]; [done|].
  simpl. apply cr_free_cons in Ha as [Hx Ha]. apply cr_free_cons. auto.
Qed.

(** On a field without carriage return the writer decides the quoting
    the same way for both line terminators. *)
Lemma needs_quote_crlf (f : string) :
  cr_free f = true -> needs_quote crlf f = needs_quote newline f.
Proof.
  induction f as [|x f IH]; [done|].
  intros [Hx Hf]%cr_free_cons. simpl. by rewrite Hx, IH.
Qed.

Lemma double_quotes_cr_free (f : string) :
  cr_free f = true -> cr_free (double_quotes f) = true.
Proof.
  induction f as [|x f IH]; [done|].
  intros [Hx Hf]%cr_free_cons. simpl.
  destruct (Ascii.eqb x dquote); repeat (apply cr_free_cons; split; auto).
Qed.

Lemma write_field_normal (lt f : string) :
  lt = newline \/ lt = crlf ->
  cr_free f = true ->
  remove_cr (write_field lt f) = write_field newline f.
Proof.
  intros Hlt Hf.
  assert (Hq : needs_quote lt f = needs_quote newline f)
    by (destruct Hlt as [->| ->]; [done|by apply needs_quote_crlf]).
  unfold write_field. rewrite Hq. apply remove_cr_id.
  destruct (needs_quote newline f); [|done].
  apply cr_free_cons. split; [done|].
  apply cr_free_app; [by apply double_quotes_cr_free|done].
Qed.

Lemma join_fields_normal (lt : string) (r : list string) :
  lt = newline \/ lt = crlf ->
  forallb cr_free r = true ->
  remove_cr (join_fields (map (write_field lt) r)) =
    join_fields (map (write_field newline) r).
Proof.
  intros Hlt. induction r as [|f r IH]; [done|].
  intros [Hf Hr]%andb_true_iff.
  destruct r as [|g r].
  - simpl. by apply write_field_normal.
  - change (join_fields (map (write_field lt) (f :: g :: r)))
      with (write_field lt f +:+ String comma (join_fields (map (write_field lt) (g :: r)))).
    change (join_fields (map (write_field newline) (f :: g :: r)))
      with (write_field newline f +:+
            String comma (join_fields (map (write_field newline) (g :: r)))).
    rewrite remove_cr_app, write_field_normal by done.
    change (remove_cr (String comma ?s)) with (String comma (remove_cr s)).
    by rewrite IH.
Qed.

Lemma lineterminator_normal (lt : string) :
  lt = newline \/ lt = crlf -> remove_cr lt = newline.
Proof. by intros [->| ->]. Qed.

Lemma write_row_normal (lt : string) (r : list string) :
  lt = newline \/ lt = crlf ->
  forallb cr_free r = true ->
  remove_cr (write_row lt r) = write_row newline r.
Proof.
  intros Hlt Hr.
  assert (Hgen : remove_cr (join_fields (map (write_field lt) r) +:+ lt) =
                 join_fields (map (write_field newline) r) +:+ newline).
  { by rewrite remove_cr_app, join_fields_normal, lineterminator_normal. }
  destruct r as [|[|x f] [|g r]]; try exact Hgen.
  simpl. by rewrite lineterminator_normal.
Qed.

Lemma write_rows_normal (lt : string) (rs : list (list string)) :
  lt = newline \/ lt = crlf ->
  forallb (forallb cr_free) rs = true ->
  remove_cr (write_rows lt rs) = write_rows newline rs.
Proof.
  intros Hlt. induction rs as [|r rs IH]; [done|].
  intros [Hr Hrs]%andb_true_iff. simpl.
  by rewrite remove_cr_app, write_row_normal, IH.
Qed.

(** *** Reading back what the writer wrote *)

Lemma needs_quote_cons (x : ascii) (f : string) :
  needs_quote newline (String x f) = false ->
  Ascii.eqb x comma = false /\ Ascii.eqb x dquote = false /\
  Ascii.eqb x LF = false /\ needs_quote newline f = false.
Proof.
  simpl. rewrite !orb_false_iff. tauto.
Qed.

(** Decide comparisons between the three special characters, and use
    the comparisons known from the context. *)
Ltac special c :=
  match c with
  | comma => idtac
  | dquote => idtac
  | LF => idtac
  end.

Ltac chars :=
  repeat match goal with
    | H : Ascii.eqb ?a ?b = _ |- context [Ascii.eqb ?a ?b] => rewrite H
    | |- context [Ascii.eqb ?a ?b] =>
        special a; special b;
        let v := eval vm_compute in (Ascii.eqb a b) in
        change (Ascii.eqb a b) with v
    end.

Ltac parse_step := cbn [parse_from String.append]; chars; cbv iota.

Lemma parse_unquoted_body (f : string) :
  forall (acc : string) (rec : list string) (rest : string),
    needs_quote newline f = false ->
    parse_from (f +:+ rest) InField acc rec =
    parse_from rest InField (acc +:+ f) rec.
Proof.
  induction f as [|x f IH]; intros acc rec rest Hq.
  - by rewrite string_app_nil_r.
  - apply needs_quote_cons in Hq as (Hc & Hd & Hl & Hq).
    parse_step. rewrite IH by done.
    by rewrite string_app_assoc.
Qed.

Lemma parse_quoted_body (f : string) :
  forall (acc : string) (rec : list string) (rest : string),
    parse_from (double_quotes f +:+ String dquote rest) InQuoted acc rec =
    parse_from rest QuoteInQuoted (acc +:+ f) rec.
Proof.
  induction f as [|x f IH]; intros acc rec rest.
  - simpl double_quotes. parse_step. by rewrite string_app_nil_r.
  - simpl double_quotes. destruct (Ascii.eqb x dquote) eqn:Hx.
    + apply Ascii.eqb_eq in Hx as ->. parse_step.
      rewrite IH. by rewrite string_app_assoc.
    + parse_step. rewrite IH. by rewrite string_app_assoc.
Qed.

Lemma quoted_then (f rest : string) :
  String dquote (double_quotes f +:+ str1 dquote) +:+ rest =
  String dquote (double_quotes f +:+ String dquote rest).
Proof. simpl. by rewrite string_app_assoc. Qed.

Lemma parse_field_comma (m : pstate) (f : string) (rec : list string)
    (rest : string) :
  m = StartRecord \/ m = StartField ->
  parse_from (write_field newline f +:+ String comma rest) m EmptyString rec =
  parse_from rest StartField EmptyString (rec ++ [f]).
Proof.
  intros Hm. unfold write_field.
  destruct (needs_quote newline f) eqn:Hq.
  - rewrite quoted_then.
    destruct Hm as [-> | ->]; parse_step; rewrite parse_quoted_body; by parse_step.
  - destruct f as [|x f].
    + destruct Hm as [-> | ->]; by parse_step.
    + apply needs_quote_cons in Hq as (Hc & Hd & Hl & Hq).
      destruct Hm as [-> | ->]; parse_step;
        rewrite parse_unquoted_body by done; by parse_step.
Qed.

Lemma parse_field_newline (f : string) (rec : list string) (rest : string) :
  parse_from (write_field newline f +:+ String LF rest) StartField EmptyString rec =
  (rec ++ [f]) :: parse_from rest StartRecord EmptyString [].
Proof.
  unfold write_field. destruct (needs_quote newline f) eqn:Hq.
  - rewrite quoted_then. parse_step. rewrite parse_quoted_body. by parse_step.
  - destruct f as [|x f].
    + by parse_step.
    + apply needs_quote_cons in Hq as (Hc & Hd & Hl & Hq).
      parse_step. rewrite parse_unquoted_body by done. by parse_step.
Qed.

Lemma parse_first_field_newline (f : string) (rest : string) :
  f <> EmptyString ->
  parse_from (write_field newline f +:+ String LF rest) StartRecord EmptyString [] =
  [f] :: parse_from rest StartRecord EmptyString [].
Proof.
  intros Hf. unfold write_field. destruct (needs_quote newline f) eqn:Hq.
  - rewrite quoted_then. parse_step. rewrite parse_quoted_body. by parse_step.
  - destruct f as [|x f]; [done|].
    apply needs_quote_cons in Hq as (Hc & Hd & Hl & Hq).
    parse_step. rewrite parse_unquoted_body by done. by parse_step.
Qed.

Lemma parse_fields (r : list string) :
  forall (rec : list string) (rest : string),
    r <> [] ->
    parse_from (join_fields (map (write_field newline) r) +:+ String LF rest)
               StartField EmptyString rec =
    (rec ++ r) :: parse_from rest StartRecord EmptyString [].
Proof.
  induction r as [|f r IH]; intros rec rest Hr; [done|].
  destruct r as [|g r].
  - apply parse_field_newline.
  - change (join_fields (map (write_field newline) (f :: g :: r)))
      with (write_field newline f +:+
            String comma (join_fields (map (write_field newline) (g :: r)))).
    rewrite string_app_assoc.
    change (String comma ?a +:+ ?b) with (String comma (a +:+ b)).
    rewrite parse_field_comma by auto.
    rewrite IH by done. by rewrite <- app_assoc.
Qed.

Lemma parse_row (r : list string) (rest : string) :
  parse_from (write_row newline r +:+ rest) StartRecord EmptyString [] =
  r :: parse_from rest StartRecord EmptyString [].
Proof.
  assert (Hnl : forall a, (a +:+ newline) +:+ rest = a +:+ String LF rest).
  { intros a. by rewrite string_app_assoc. }
  destruct r as [|f [|g r]].
  - unfold write_row. simpl join_fields. by parse_step.
  - destruct f as [|x f].
    + unfold write_row. by parse_step.
    + unfold write_row. simpl join_fields. rewrite Hnl.
      by apply parse_first_field_newline.
  - assert (Hrow : write_row newline (f :: g :: r) =
                   join_fields (map (write_field newline) (f :: g :: r)) +:+ newline)
      by (by destruct f).
    rewrite Hrow, Hnl.
    change (join_fields (map (write_field newline) (f :: g :: r)))
      with (write_field newline f +:+
            String comma (join_fields (map (write_field newline) (g :: r)))).
    rewrite string_app_assoc.
    change (String comma ?a +:+ ?b) with (String comma (a +:+ b)).
    rewrite parse_field_comma by auto.
    by rewrite parse_fields.
Qed.

(** The reader inverts the newline-terminated writer. *)
Lemma parse_write_rows (rs : list (list string)) :
  parse_csv (write_rows newline rs) = rs.
Proof.
  unfold parse_csv. induction rs as [|r rs IH]; [done|].
  simpl write_rows. by rewrite parse_row, IH.
Qed.

Lemma normalize_rows (lt : string) (rs : list (list string)) :
  remove_cr (write_rows lt rs) = String.concat EmptyString (map (row_text lt) rs).
Proof.
  induction rs as [|r rs IH]; [done|].
  simpl write_rows. rewrite remove_cr_app, IH.
  destruct rs as [|r' rs]; [|done].
  simpl. by rewrite string_app_nil_r.
Qed.

(** A table tool that returns a string returns the text of a table or
    an error text. *)
Lemma table_tool_text (w : World) (t : tool) (st st' : State) (s : string) :
  is_table_tool t = true ->
  call w t st = (st', Ok (Some s)) ->
  (exists df, s = normalize (os_linesep w) df) \/ (exists e, s = msg_error e).
Proof.
  intros Ht Hcall.
  destruct t as [|mart|mart dataset|mart dataset|mart dataset
                 |mart dataset attributes filters
                 |mart dataset from_attr to_attr target]; [..|done]; simpl in Hcall.
  - unfold some, list_marts, try_except, bind, server_list_marts, remote, ret,
      print_stderr, emit in Hcall.
    destruct (get_server w st) as [s1 [srv|e]]; simpl in Hcall.
    + destruct (remote_list_marts w (clock s1)); simplify_eq; eauto.
    + simplify_eq; eauto.
  - unfold some, list_datasets, try_except, bind, server_list_datasets, remote, ret,
      print_stderr, emit in Hcall.
    destruct (get_server w st) as [s1 [srv|e]]; simpl in Hcall.
    + destruct (remote_list_datasets w (clock s1) mart); simplify_eq; eauto.
    + simplify_eq; eauto.
  - unfold some, list_common_attributes, bind, new_server, server_list_attributes,
      remote, lift, ret in Hcall. simpl in Hcall.
    destruct (connect w (clock st) DEFAULT_HOST); simpl in Hcall; [|done].
    destruct (remote_list_attributes w (S (clock st)) mart dataset) as [df|];
      simpl in Hcall; [|done].
    destruct (getitem_column "name" df); simplify_eq; eauto.
  - unfold some, list_all_attributes, bind, new_server, server_list_attributes,
      remote, lift, ret in Hcall. simpl in Hcall.
    destruct (connect w (clock st) DEFAULT_HOST); simpl in Hcall; [|done].
    destruct (remote_list_attributes w (S (clock st)) mart dataset) as [df|];
      simpl in Hcall; [|done].
    destruct (drop_matching "_homolog_" df) as [df1|]; simpl in Hcall; [|done].
    destruct (drop_matching "dbass" df1) as [df2|]; simpl in Hcall; [|done].
    destruct (drop_matching "affy_" df2) as [df3|]; simpl in Hcall; [|done].
    destruct (drop_matching "agilent_" df3); simplify_eq; eauto.
  - unfold some, list_filters, bind, new_server, server_list_filters,
      remote, lift, ret in Hcall. simpl in Hcall.
    destruct (connect w (clock st) DEFAULT_HOST); simpl in Hcall; [|done].
    destruct (remote_list_filters w (S (clock st)) mart dataset);
      simplify_eq; eauto.
  - assert (Htry : forall s0 s1 text,
              get_data_try w mart dataset attributes filters s0 = (s1, Ok text) ->
              exists df, text = normalize (os_linesep w) df).
    { intros s0 s1 text. unfold get_data_try, bind, ret.
      destruct (fetch_table w mart dataset attributes filters s0) as [? [df|?]];
        intros; simplify_eq; eauto. }
    unfold get_data in Hcall. simpl in Hcall.
    destruct (get_data_try w mart dataset attributes filters st)
      as [s1 [text|e1]] eqn:H1; [simplify_eq; eauto|].
    unfold bind at 1 2 3 in Hcall. simpl in Hcall.
    destruct (get_data_try w mart dataset attributes filters _)
      as [s2 [text|e2]] eqn:H2 in Hcall; [simplify_eq; eauto|].
    unfold bind at 1 2 3 in Hcall. simpl in Hcall.
    destruct (get_data_try w mart dataset attributes filters _)
      as [s3 [text|e3]] eqn:H3 in Hcall; [simplify_eq; eauto|].
    unfold bind, ret in Hcall. simpl in Hcall. simplify_eq. eauto.
Qed.

(** C9, as the code has it.  On either platform, a table tool that
    returns returns an error text or the text of a table [df]; that text
    is the header row followed by one row per record, each row
    comma-separated; it holds no carriage return; and, when no column
    name and no cell of [df] holds a carriage return, reading it back as
    CSV gives [df] itself, columns and cells in order. *)
Theorem returned_table_text (w : World) :
  os_linesep w = newline \/ os_linesep w = crlf ->
  (forall t st st' s,
     is_table_tool t = true ->
     call w t st = (st', Ok (Some s)) ->
     (exists df, s = normalize (os_linesep w) df) \/ (exists e, s = msg_error e)) /\
  (forall df,
     normalize (os_linesep w) df =
       String.concat EmptyString
         (map (row_text (os_linesep w)) (columns df :: rows df)) /\
     (forall record,
        forallb cr_free record = true ->
        row_text (os_linesep w) record = write_row newline record) /\
     mem_char CR (normalize (os_linesep w) df) = false /\
     (cr_free_table df = true ->
      read_csv (normalize (os_linesep w) df) = Some df)).
Proof.
  intros Hlt. split; [intros t st st' s; apply table_tool_text|].
  intros df. unfold normalize, to_csv.
  split; [apply normalize_rows|].
  split; [intros record; by apply write_row_normal|].
  split; [apply remove_cr_free|].
  intros [Hcols Hrows]%andb_true_iff.
  rewrite write_rows_normal; [|done|simpl; by rewrite Hcols, Hrows].
  unfold read_csv. rewrite parse_write_rows. by destruct df.
Qed.

Lemma returned_table_text_witness :
  read_csv (normalize crlf gene_table) = Some gene_table /\
  mem_char CR (normalize crlf gene_table) = false.
Proof.
  destruct (returned_table_text windows_world (or_intror eq_refl)) as (_ & Hdf).
  destruct (Hdf gene_table) as (_ & _ & Hcr & Hread).
  split; [apply Hread; reflexivity|exact Hcr].
Defined.

(** C9 as stated fails: a carriage return inside a cell is removed with
    the others, so the table read back differs from the original. *)
Lemma returned_table_text_counterexample :
  read_csv (normalize newline cr_table) =
    Some (mkDataFrame ["name"; "description"] [ ["band"; "ab"] ]) /\
  read_csv (normalize newline cr_table) <> Some cr_table /\
  read_csv (normalize crlf cr_table) <> Some cr_table.
Proof. repeat split; try reflexivity; intros H; discriminate H. Qed.

(** * More properties of the tools *)

(** ** State properties that survive a computation *)

Lemma preserves_ret {A} (P : State -> Prop) (a : A) : preserves P (ret a).
Proof. by intros st. Qed.

Lemma preserves_raise {A} (P : State -> Prop) (e : string) :
  preserves P (@raise A e).
Proof. by intros st. Qed.

Lemma preserves_lift {A} (P : State -> Prop) (r : result A) :
  preserves P (lift r).
Proof. by intros st. Qed.

Lemma preserves_bind {A B} (P : State -> Prop) (m : M A) (k : A -> M B) :
  preserves P m -> (forall a, preserves P (k a)) -> preserves P (bind m k).
Proof.
  intros Hm Hk st HP. unfold bind. specialize (Hm st HP).
  destruct (m st) as [st' [a|e]]; simpl in *; [|done].
  by apply Hk.
Qed.

Lemma preserves_try_except {A} (P : State -> Prop) (body : M A)
    (handler : string -> M A) :
  preserves P body -> (forall e, preserves P (handler e)) ->
  preserves P (try_except body handler).
Proof.
  intros Hm Hk st HP. unfold try_except. specialize (Hm st HP).
  destruct (body st) as [st' [a|e]]; simpl in *; [done|].
  by apply Hk.
Qed.

Lemma preserves_some {A} (P : State -> Prop) (m : M A) :
  preserves P m -> preserves P (some m).
Proof.
  intros Hm. unfold some. apply preserves_bind; [done|].
  intros a. apply preserves_ret.
Qed.

(** The wrapper of [get_translation] adds only a write to the
    translation cache. *)
Lemma preserves_get_translation_key (P : State -> Prop) (w : World) (k : TKey) :
  (forall c st, P st -> P (set_translation_cache c st)) ->
  preserves P (get_translation_body w k) ->
  preserves P (get_translation_key w k).
Proof.
  intros Hset Hbody st HP. unfold get_translation_key, lru_cache.
  destruct (lru_get k (translation_cache st)); [by apply Hset|].
  specialize (Hbody st HP).
  destruct (get_translation_body w k st) as [st' [v|e]]; simpl in *; [|done].
  by apply Hset.
Qed.

Lemma count_connects_snoc (tr : list event) (e : event) :
  count_connects (tr ++ [e]) =
    count_connects tr + (if is_connect e then 1 else 0).
Proof.
  rewrite count_connects_app. f_equal. by destruct e.
Qed.

(** *** With a cached connection *)

Lemma connected_emit (n : nat) (e : event) :
  is_connect e = false -> preserves (connected n) (emit e).
Proof.
  intros He st [Hc Hn]. split; [done|]. simpl.
  rewrite count_connects_snoc, He. lia.
Qed.

Lemma connected_remote {A} (n : nat) (e : event) (answer : nat -> result A) :
  is_connect e = false -> preserves (connected n) (remote e answer).
Proof.
  intros He st [Hc Hn]. split; [done|]. simpl.
  rewrite count_connects_snoc, He. lia.
Qed.

Lemma connected_get_server (n : nat) (w : World) :
  preserves (connected n) (get_server w).
Proof.
  intros st [Hc Hn].
  destruct (server_cache st) as [|[u srv] c] eqn:Hs; [done|].
  rewrite (get_server_cached w st u srv c Hs). by split.
Qed.

Lemma connected_set_translation_cache (n : nat) (c : list (TKey * string))
    (st : State) :
  connected n st -> connected n (set_translation_cache c st).
Proof. by intros [? ?]. Qed.

(** *** The size of the connection cache *)

Lemma one_server_emit (e : event) : preserves one_server (emit e).
Proof. by intros st. Qed.

Lemma one_server_remote {A} (e : event) (answer : nat -> result A) :
  preserves one_server (remote e answer).
Proof. by intros st. Qed.

Lemma one_server_new_server (w : World) (host : string) :
  preserves one_server (new_server w host).
Proof.
  intros st H. unfold new_server, remote. simpl.
  by destruct (connect w (clock st) host).
Qed.

Lemma one_server_get_server (w : World) : preserves one_server (get_server w).
Proof.
  intros st H. unfold one_server in *.
  destruct (server_cache st) as [|[[] srv] [|? ?]] eqn:Hs; simpl in H; [| |lia].
  - destruct (connect w (clock st) DEFAULT_HOST) as [[]|e] eqn:Hw.
    + by rewrite (get_server_connects w st Hs Hw).
    + rewrite (get_server_fails w st e Hs Hw). simpl. lia.
  - rewrite (get_server_cached w st () srv [] Hs). simpl. rewrite Hs. simpl.
    by destruct (decide (() = ())).
Qed.

Lemma one_server_set_translation_cache (c : list (TKey * string)) (st : State) :
  one_server st -> one_server (set_translation_cache c st).
Proof. done. Qed.

Create HintDb preserves.
#[local] Hint Resolve preserves_ret preserves_raise preserves_lift
  preserves_some connected_get_server one_server_emit one_server_remote
  one_server_new_server one_server_get_server : preserves.
#[local] Hint Extern 1 (preserves _ (bind _ _)) =>
  apply preserves_bind; [|intros ?] : preserves.
#[local] Hint Extern 1 (preserves _ (try_except _ _)) =>
  apply preserves_try_except; [|intros ?] : preserves.
#[local] Hint Extern 2 (preserves (connected _) (emit _)) =>
  apply connected_emit; reflexivity : preserves.
#[local] Hint Extern 2 (preserves (connected _) (remote _ _)) =>
  apply connected_remote; reflexivity : preserves.
#[local] Hint Extern 2 (preserves (connected _) (print_stderr _)) =>
  apply connected_emit; reflexivity : preserves.
#[local] Hint Extern 2 (preserves (connected _) (sleep _)) =>
  apply connected_emit; reflexivity : preserves.
#[local] Hint Extern 2 (preserves one_server (print_stderr _)) =>
  apply one_server_emit : preserves.
#[local] Hint Extern 2 (preserves one_server (sleep _)) =>
  apply one_server_emit : preserves.

Ltac preserves :=
  unfold fetch_table, build_mapping, server_list_marts, server_list_datasets,
    server_list_attributes, server_list_filters, server_query;
  auto 20 with preserves.

Lemma preserves_get_data_loop (P : State -> Prop) (w : World)
    (mart dataset : string) (attributes : list string)
    (filters : gmap string string) :
  preserves P (get_data_try w mart dataset attributes filters) ->
  (forall line, preserves P (print_stderr line)) ->
  preserves P (sleep RETRY_DELAY) ->
  forall attempts,
    preserves P (get_data_loop w mart dataset attributes filters attempts).
Proof.
  intros Htry Hprint Hsleep attempts.
  induction attempts as [|attempt rest IH]; [by intros st|].
  intros st HP. simpl. specialize (Htry st HP).
  destruct (get_data_try w mart dataset attributes filters st) as [s1 [text|e]];
    simpl in Htry; [done|].
  assert (Hk : preserves P
    (print_stderr (msg_get_data attempt e) >>
     if decide (attempt < MAX_RETRIES - 1)
     then (print_stderr msg_retry >> sleep RETRY_DELAY >>
           get_data_loop w mart dataset attributes filters rest)
     else ret (Some (msg_error e)))); [|by apply Hk].
  apply preserves_bind; [apply Hprint|]. intros _.
  case_decide; [|apply preserves_ret].
  apply preserves_bind; [apply Hprint|]. intros _.
  apply preserves_bind; [apply Hsleep|]. intros _. apply IH.
Qed.

Lemma preserves_get_translation_body (P : State -> Prop) (w : World) (k : TKey) :
  preserves P (get_server w) ->
  (forall mart dataset attributes filters answer,
     preserves P (@remote DataFrame
                    (EvQuery mart dataset attributes filters) answer)) ->
  (forall line, preserves P (print_stderr line)) ->
  preserves P (get_translation_body w k).
Proof.
  intros Hs Hr Hp.
  destruct k as [[[[mart dataset] from_attr] to_attr] target].
  unfold get_translation_body, build_mapping, fetch_table, server_query.
  apply preserves_try_except.
  - apply preserves_bind.
    + repeat (apply preserves_bind; [|intros ?]);
        auto using preserves_lift, preserves_ret.
    + intros d. destruct (d !! target); [apply preserves_ret|].
      apply preserves_bind; [apply Hp|]. intros _. apply preserves_ret.
  - intros e. apply preserves_bind; [apply Hp|]. intros _. apply preserves_ret.
Qed.

(** A tool that goes through [get_server] opens no connection once one
    is cached, and leaves one cached. *)
Lemma connected_call (n : nat) (w : World) (t : tool) :
  uses_connection_cache t = true -> preserves (connected n) (call w t).
Proof.
  intros Ht.
  destruct t as [|mart|mart dataset|mart dataset|mart dataset
                 |mart dataset attributes filters
                 |mart dataset from_attr to_attr target]; try done; simpl.
  - unfold list_marts. preserves.
  - unfold list_datasets. preserves.
  - unfold get_data. apply preserves_get_data_loop.
    + unfold get_data_try. preserves.
    + intros line. by apply connected_emit.
    + by apply connected_emit.
  - apply preserves_some. unfold get_translation.
    apply preserves_get_translation_key.
    + intros c st. apply connected_set_translation_cache.
    + apply preserves_get_translation_body.
      * apply connected_get_server.
      * intros m d a f answer. by apply connected_remote.
      * intros line. by apply connected_emit.
Qed.

(** ** The connection cache across calls *)

(** X1.  A connection failure is not cached: [get_server] writes one
    diagnostic line, raises the same fault and leaves the cache empty,
    so the next call connects again; when the host then accepts, that
    call returns a handle and caches it. *)
Theorem get_server_failure_not_cached (w : World) (st : State) (e : string) :
  server_cache st = [] ->
  connect w (clock st) DEFAULT_HOST = Raise e ->
  connect w (S (clock st)) DEFAULT_HOST = Ok tt ->
  exists st1 st2 srv,
    get_server w st = (st1, Raise e) /\
    trace st1 = trace st ++ [EvConnect DEFAULT_HOST; EvStderr (msg_connect e)] /\
    server_cache st1 = [] /\
    get_server w st1 = (st2, Ok srv) /\
    trace st2 = trace st1 ++ [EvConnect DEFAULT_HOST] /\
    server_cache st2 = [(tt, srv)].
Proof.
  intros Hc Hfail Hok.
  pose proof (get_server_fails w st e Hc Hfail) as H1.
  eexists _, _, _. split; [exact H1|].
  split; [reflexivity|]. split; [reflexivity|].
  split; [by apply get_server_connects|]. by split.
Qed.

(** A world whose host refuses the first connection and accepts the
    later ones. *)
Lemma get_server_failure_not_cached_witness :
  exists st1 st2 srv,
    get_server (flaky_host 0) initial_state = (st1, Raise "host unreachable") /\
    get_server (flaky_host 0) st1 = (st2, Ok srv) /\
    server_cache st2 = [(tt, srv)].
Proof.
  destruct (get_server_failure_not_cached (flaky_host 0) initial_state
              "host unreachable" eq_refl eq_refl eq_refl)
    as (st1 & st2 & srv & H1 & _ & _ & H2 & _ & H3).
  by exists st1, st2, srv.
Defined.

Lemma server_cache_kept_emit (c : list (unit * Server)) (e : event) :
  preserves (fun st => server_cache st = c) (emit e).
Proof. by intros st. Qed.

Lemma server_cache_kept_remote {A} (c : list (unit * Server)) (e : event)
    (answer : nat -> result A) :
  preserves (fun st => server_cache st = c) (remote e answer).
Proof. by intros st. Qed.

Lemma server_cache_kept_new_server (c : list (unit * Server)) (w : World)
    (host : string) :
  preserves (fun st => server_cache st = c) (new_server w host).
Proof.
  intros st H. unfold new_server, remote. simpl.
  by destruct (connect w (clock st) host).
Qed.

Lemma own_connection_frame (w : World) (t : tool) (st : State) :
  uses_connection_cache t = false ->
  count_connects (trace (fst (call w t st))) = S (count_connects (trace st)) /\
  server_cache (fst (call w t st)) = server_cache st /\
  translation_cache (fst (call w t st)) = translation_cache st.
Proof.
  intros Ht.
  assert (Hsome : forall (m : M string) s, fst (some m s) = fst (m s)).
  { intros m s. unfold some, bind, ret. by destruct (m s) as [? [?|?]]. }
  assert (Hkept : forall c (m : M string),
             preserves (fun s => server_cache s = c) m ->
             forall s, server_cache s = c -> server_cache (fst (m s)) = c)
    by (intros c m Hm s; apply Hm).
  destruct t as [|mart|mart dataset|mart dataset|mart dataset
                 |mart dataset attributes filters
                 |mart dataset from_attr to_attr target]; try done;
    simpl; rewrite Hsome;
    destruct (own_connection_every_call w mart dataset st) as (Hc & Ha & Hf).
  - split; [exact Hc|]. split; [|apply keeps_list_common_attributes].
    apply (Hkept (server_cache st)); [|done].
    unfold list_common_attributes, server_list_attributes.
    repeat (apply preserves_bind; [|intros ?]);
      auto using preserves_lift, preserves_ret, server_cache_kept_new_server,
        server_cache_kept_remote.
  - split; [exact Ha|]. split; [|apply keeps_list_all_attributes].
    apply (Hkept (server_cache st)); [|done].
    unfold list_all_attributes, server_list_attributes.
    repeat (apply preserves_bind; [|intros ?]);
      auto using preserves_lift, preserves_ret, server_cache_kept_new_server,
        server_cache_kept_remote.
  - split; [exact Hf|]. split; [|apply keeps_list_filters].
    apply (Hkept (server_cache st)); [|done].
    unfold list_filters, server_list_filters.
    repeat (apply preserves_bind; [|intros ?]);
      auto using preserves_lift, preserves_ret, server_cache_kept_new_server,
        server_cache_kept_remote.
Qed.

(** X4.  A listing that does not go through [get_server] opens exactly
    one connection on every call, whatever the connection cache holds,
    and leaves both caches as they were. *)
Theorem own_connection_call (w : World) (t : tool) (st : State) :
  uses_connection_cache t = false ->
  count_connects (trace (fst (call w t st))) = S (count_connects (trace st)) /\
  server_cache (fst (call w t st)) = server_cache st /\
  translation_cache (fst (call w t st)) = translation_cache st.
Proof. apply own_connection_frame. Qed.

Lemma own_connection_call_witness :
  let st1 := fst (call steady_world ListMarts initial_state) in
  count_connects (trace (fst (call steady_world (ListFilters MART DATASET) st1))) =
    S (count_connects (trace st1)).
Proof.
  apply (own_connection_call steady_world (ListFilters MART DATASET)). reflexivity.
Defined.

(** X2.  Once a connection is cached it is never replaced: over any
    sequence of tool calls, the tools that go through [get_server] open
    no connection at all, so the connections opened are exactly one per
    call of a listing that builds its own; a connection stays cached
    throughout. *)
Theorem connections_opened (w : World) (ts : list tool) :
  forall st,
    server_cache st <> [] ->
    count_connects (trace (fst (run_calls w ts st))) =
      count_connects (trace st) + count_own_connections ts /\
    server_cache (fst (run_calls w ts st)) <> [].
Proof.
  induction ts as [|t ts IH]; intros st Hc; [simpl; split; [lia|done]|].
  simpl. destruct (call w t st) as [st1 r] eqn:Hcall.
  destruct (run_calls w ts st1) as [st2 rs] eqn:Hrun. simpl.
  assert (Hst1 : st1 = fst (call w t st)) by (by rewrite Hcall).
  assert (Hst2 : st2 = fst (run_calls w ts st1)) by (by rewrite Hrun).
  destruct (uses_connection_cache t) eqn:Ht.
  - destruct (connected_call (count_connects (trace st)) w t Ht st) as [Hc1 Hn1];
      [by split|].
    rewrite <- Hst1 in Hc1, Hn1.
    destruct (IH st1 Hc1) as [Hn2 Hc2]. rewrite <- Hst2 in Hn2, Hc2.
    split; [lia|done].
  - destruct (own_connection_frame w t st Ht) as (Hn1 & Hs1 & _).
    rewrite <- Hst1 in Hn1, Hs1.
    destruct (IH st1) as [Hn2 Hc2]; [by rewrite Hs1|].
    rewrite <- Hst2 in Hn2, Hc2. split; [lia|done].
Qed.

Lemma connections_opened_witness :
  let st1 := fst (call steady_world ListMarts initial_state) in
  count_connects
    (trace (fst (run_calls steady_world
                   [ListDatasets MART; ask "TP53"; ListFilters MART DATASET;
                    GetData MART DATASET ["hgnc_symbol"] ∅] st1))) = 2.
Proof.
  intros st1.
  destruct (connections_opened steady_world
              [ListDatasets MART; ask "TP53"; ListFilters MART DATASET;
               GetData MART DATASET ["hgnc_symbol"] ∅] st1) as [Hn _].
  - intros H. discriminate H.
  - exact Hn.
Defined.

(** ** The bounds of the caches *)

Section lru_bounds.
Context {K V : Type} `{EqDecision K}.
Implicit Types k : K.
Implicit Types v : V.
Implicit Types c : list (K * V).

Lemma lru_remove_length k v c :
  lru_get k c = Some v -> S (length (lru_remove k c)) <= length c.
Proof.
  induction c as [|[k' v'] c IH]; [done|]. simpl.
  destruct (decide (k = k')) as [->|Hne]; intros Hg.
  - clear IH Hg. induction c as [|[k'' v''] c IH]; simpl; [lia|].
    destruct (decide (k' = k'')); simpl; lia.
  - simpl. specialize (IH Hg). lia.
Qed.

(** One call keeps the store within its capacity and its keys pairwise
    different. *)
Lemma lru_step_bounded (maxsize : nat) k v c :
  length c <= maxsize -> NoDup c.*1 ->
  length (lru_step maxsize k v c) <= maxsize /\
  NoDup (lru_step maxsize k v c).*1.
Proof.
  intros Hlen Hnd. unfold lru_step.
  destruct (lru_get k c) as [u|] eqn:Hg.
  - unfold lru_hit. split.
    + simpl. pose proof (lru_remove_length k u c Hg). lia.
    + simpl. apply NoDup_cons. split; [|by apply lru_remove_NoDup].
      rewrite lru_remove_keys. tauto.
  - unfold lru_put. split.
    + rewrite length_take. lia.
    + rewrite fmap_take. apply (sublist_NoDup _ ((k, v) :: c).*1).
      * simpl. apply NoDup_cons. split; [by apply lru_get_None|done].
      * apply sublist_take.
Qed.
End lru_bounds.

Lemma one_server_call (w : World) (t : tool) : preserves one_server (call w t).
Proof.
  destruct t as [|mart|mart dataset|mart dataset|mart dataset
                 |mart dataset attributes filters
                 |mart dataset from_attr to_attr target]; simpl.
  - unfold list_marts. preserves.
  - unfold list_datasets. preserves.
  - unfold list_common_attributes. preserves.
  - unfold list_all_attributes. preserves.
  - unfold list_filters. preserves.
  - unfold get_data. apply preserves_get_data_loop.
    + unfold get_data_try. preserves.
    + intros line. apply one_server_emit.
    + apply one_server_emit.
  - apply preserves_some. unfold get_translation.
    apply preserves_get_translation_key.
    + intros c st. apply one_server_set_translation_cache.
    + apply preserves_get_translation_body.
      * apply one_server_get_server.
      * intros m d a f answer. apply one_server_remote.
      * intros line. apply one_server_emit.
Qed.

Lemma table_tools_keep_translations_frame (w : World) (t : tool) (st : State) :
  is_table_tool t = true ->
  translation_cache (fst (call w t st)) = translation_cache st.
Proof.
  intros Ht.
  destruct t as [|mart|mart dataset|mart dataset|mart dataset
                 |mart dataset attributes filters
                 |mart dataset from_attr to_attr target]; try done; simpl.
  - apply (keeps_some _ (keeps_list_marts w)).
  - apply (keeps_some _ (keeps_list_datasets w mart)).
  - apply (keeps_some _ (keeps_list_common_attributes w mart dataset)).
  - apply (keeps_some _ (keeps_list_all_attributes w mart dataset)).
  - apply (keeps_some _ (keeps_list_filters w mart dataset)).
  - unfold get_data. apply keeps_get_data_loop.
Qed.

(** X10.  Only [get_translation] writes to the translation cache: each
    of the six table tools leaves it exactly as it was, whatever the
    outcome of the call. *)
Theorem table_tools_keep_translations (w : World) (t : tool) (st : State) :
  is_table_tool t = true ->
  translation_cache (fst (call w t st)) = translation_cache st.
Proof. apply table_tools_keep_translations_frame. Qed.

Lemma table_tools_keep_translations_witness :
  let st1 := fst (call steady_world (ask "TP53") initial_state) in
  translation_cache
    (fst (call steady_world (GetData MART DATASET ["hgnc_symbol"] ∅) st1)) =
  translation_cache st1.
Proof.
  apply (table_tools_keep_translations steady_world
           (GetData MART DATASET ["hgnc_symbol"] ∅)). reflexivity.
Defined.

Lemma caches_bounded_call (w : World) (t : tool) : preserves caches_bounded (call w t).
Proof.
  intros st (Hs & Hlen & Hnd). split; [by apply one_server_call|].
  destruct (is_table_tool t) eqn:Ht.
  - by rewrite table_tools_keep_translations_frame.
  - destruct t as [| | | | | |mart dataset from_attr to_attr target]; try done.
    change (GetTranslation mart dataset from_attr to_attr target)
      with (translation_call (mart, dataset, from_attr, to_attr, target)).
    rewrite call_get_translation. simpl fst.
    destruct (get_translation_key_stores w
                (mart, dataset, from_attr, to_attr, target) st)
      as (st' & v & c & Hcall & _ & Hstep & _).
    rewrite Hcall. simpl fst. rewrite Hstep.
    by apply lru_step_bounded.
Qed.

Lemma caches_bounded_run_calls (w : World) (ts : list tool) :
  forall st, caches_bounded st -> caches_bounded (fst (run_calls w ts st)).
Proof.
  induction ts as [|t ts IH]; intros st Hb; [done|].
  simpl. pose proof (caches_bounded_call w t st Hb) as Hb1.
  destruct (call w t st) as [st1 r]. simpl in Hb1.
  specialize (IH st1 Hb1).
  by destruct (run_calls w ts st1) as [st2 rs].
Qed.

(** X9.  Whatever tools are called, in whatever order and with whatever
    answers of the remote service, the connection cache never holds
    more than one handle, the translation cache never holds more than
    1000 entries, and no key is stored twice. *)
Theorem caches_stay_bounded (w : World) (ts : list tool) :
  let st := fst (run_calls w ts initial_state) in
  length (server_cache st) <= 1 /\
  length (translation_cache st) <= 1000 /\
  NoDup (translation_cache st).*1.
Proof.
  apply caches_bounded_run_calls. repeat split; simpl; try lia. constructor.
Qed.

(** ** Every outcome of [get_data] *)

Lemma server_events_connects (st : State) (d : list event) :
  server_events st d -> count_connects d <= 1.
Proof. intros [H|H|e H]; [apply Nat.le_0_l|done|done]. Qed.

(** One [try] block of [get_data]: at most one connection, at most one
    query, no sleep, no line of the retry loop; what it returns is the
    text of a table. *)
Lemma get_data_try_events (w : World) (mart dataset : string)
    (attributes : list string) (filters : gmap string string)
    (st st' : State) (r : result string) :
  get_data_try w mart dataset attributes filters st = (st', r) ->
  exists d, trace st' = trace st ++ d /\ attempt_quiet d /\
            count_queries d <= 1 /\ count_connects d <= 1 /\
            (forall text, r = Ok text ->
               exists df, text = normalize (os_linesep w) df).
Proof.
  intros H.
  destruct (get_data_try_trace _ _ _ _ _ _ _ _ H) as (d & Hd & Hq & _).
  exists d. split; [done|]. split; [done|].
  unfold get_data_try, fetch_table, bind, ret in H.
  destruct (get_server w st) as [s1 [srv|e]] eqn:Hs;
    destruct (get_server_trace w st s1 _ Hs) as (ds & Hds & Hev & _).
  - unfold server_query, remote in H.
    assert (Hdd : d = ds ++ [EvQuery mart dataset attributes filters]).
    { destruct (remote_query w (clock s1) mart dataset attributes filters);
        inversion H; subst st'; simpl in Hd; rewrite Hds, <- app_assoc in Hd;
        by apply app_inv_head in Hd. }
    subst d. rewrite count_queries_app, count_connects_app,
      (server_events_queries st ds Hev).
    pose proof (server_events_connects st ds Hev).
    change (count_queries [EvQuery mart dataset attributes filters]) with 1.
    change (count_connects [EvQuery mart dataset attributes filters]) with 0.
    repeat split; try lia.
    intros text ->.
    destruct (remote_query w (clock s1) mart dataset attributes filters) as [df|];
      inversion H. eauto.
  - inversion H; subst; clear H. rewrite Hds in Hd. apply app_inv_head in Hd.
    subst ds. rewrite (server_events_queries st d Hev).
    pose proof (server_events_connects st d Hev). repeat split; try lia. done.
Qed.

Lemma handler_events (a b : string) (n : nat) :
  count_queries [EvStderr a; EvStderr b; EvSleep n] = 0 /\
  count_connects [EvStderr a; EvStderr b; EvSleep n] = 0 /\
  count_queries [EvStderr a] = 0 /\ count_connects [EvStderr a] = 0.
Proof. done. Qed.

(** X7.  Every call of [get_data] returns a string, after [f <= 3]
    failed attempts: it writes [f] failure entries, and one retry notice
    and one sleep of [RETRY_DELAY = 2] seconds for each of the first two
    failures, so it never sleeps more than twice (four seconds); it
    makes at most three queries and opens at most three connections;
    with fewer than three failures the string is the text of a table,
    with three it is an error text. *)
Theorem get_data_outcome (w : World) (mart dataset : string)
    (attributes : list string) (filters : gmap string string) (st : State) :
  exists st' s d f,
    get_data w mart dataset attributes filters st = (st', Ok (Some s)) /\
    trace st' = trace st ++ d /\
    f <= MAX_RETRIES /\
    count_lines is_failure_entry (stderr_lines d) = f /\
    count_lines is_retry_notice (stderr_lines d) = Nat.min f 2 /\
    sleeps d = replicate (Nat.min f 2) RETRY_DELAY /\
    count_queries d <= MAX_RETRIES /\
    count_connects d <= MAX_RETRIES /\
    (f < MAX_RETRIES -> exists df, s = normalize (os_linesep w) df) /\
    (f = MAX_RETRIES -> exists e, s = msg_error e).
Proof.
  unfold MAX_RETRIES.
  destruct (get_data_try w mart dataset attributes filters st)
    as [s1 [t1|e1]] eqn:H1;
    destruct (get_data_try_events _ _ _ _ _ _ _ _ H1)
      as (d1 & Hd1 & (Hs1 & Hf1 & Hr1) & Hq1 & Hc1 & Ht1).
  { exists s1, t1, d1, 0.
    split; [unfold get_data; simpl; by rewrite H1|].
    rewrite Hs1, Hf1, Hr1. repeat split; try done; try lia.
    intros _. by apply Ht1. }
  assert (Hfa1 : failed_attempts w mart dataset attributes filters 0 1 st =
                 Some (after_failure 0 e1 s1)) by (simpl; by rewrite H1).
  destruct (get_data_try w mart dataset attributes filters (after_failure 0 e1 s1))
    as [s2 [t2|e2]] eqn:H2;
    destruct (get_data_try_events _ _ _ _ _ _ _ _ H2)
      as (d2 & Hd2 & (Hs2 & Hf2 & Hr2) & Hq2 & Hc2 & Ht2);
    rewrite after_failure_trace, Hd1 in Hd2.
  { exists s2, t2,
      (d1 ++ [EvStderr (msg_get_data 0 e1); EvStderr msg_retry;
              EvSleep RETRY_DELAY] ++ d2), 1.
    split.
    { unfold get_data. change (seq 0 MAX_RETRIES) with (seq 0 1 ++ [1; 2]).
      rewrite (get_data_loop_failed w mart dataset attributes filters 1 0 [1; 2]
                 st (after_failure 0 e1 s1)); [|unfold MAX_RETRIES; lia|exact Hfa1].
      cbn [get_data_loop]. by rewrite H2. }
    split; [by rewrite Hd2, <- !app_assoc|].
    rewrite !stderr_lines_app, !count_lines_app, !sleeps_app,
      !count_queries_app, !count_connects_app, Hs1, Hf1, Hr1, Hs2, Hf2, Hr2.
    destruct (handler_events (msg_get_data 0 e1) msg_retry RETRY_DELAY)
      as (-> & -> & _).
    repeat split; try done; try lia.
    intros _. by apply Ht2. }
  assert (Hfa2 : failed_attempts w mart dataset attributes filters 0 2 st =
                 Some (after_failure 1 e2 s2)) by (simpl; by rewrite H1, H2).
  destruct (get_data_try w mart dataset attributes filters (after_failure 1 e2 s2))
    as [s3 [t3|e3]] eqn:H3;
    destruct (get_data_try_events _ _ _ _ _ _ _ _ H3)
      as (d3 & Hd3 & (Hs3 & Hf3 & Hr3) & Hq3 & Hc3 & Ht3);
    rewrite after_failure_trace, Hd2 in Hd3.
  { exists s3, t3,
      (d1 ++ [EvStderr (msg_get_data 0 e1); EvStderr msg_retry;
              EvSleep RETRY_DELAY] ++ d2 ++
       [EvStderr (msg_get_data 1 e2); EvStderr msg_retry;
        EvSleep RETRY_DELAY] ++ d3), 2.
    split.
    { unfold get_data. change (seq 0 MAX_RETRIES) with (seq 0 2 ++ [2]).
      rewrite (get_data_loop_failed w mart dataset attributes filters 2 0 [2]
                 st (after_failure 1 e2 s2)); [|unfold MAX_RETRIES; lia|exact Hfa2].
      cbn [get_data_loop]. by rewrite H3. }
    split; [by rewrite Hd3, <- !app_assoc|].
    rewrite !stderr_lines_app, !count_lines_app, !sleeps_app,
      !count_queries_app, !count_connects_app, Hs1, Hf1, Hr1, Hs2, Hf2, Hr2,
      Hs3, Hf3, Hr3.
    destruct (handler_events (msg_get_data 0 e1) msg_retry RETRY_DELAY)
      as (-> & -> & _).
    destruct (handler_events (msg_get_data 1 e2) msg_retry RETRY_DELAY)
      as (-> & -> & _).
    repeat split; try done; try lia.
    intros _. by apply Ht3. }
  eexists _, (msg_error e3),
    (d1 ++ [EvStderr (msg_get_data 0 e1); EvStderr msg_retry;
            EvSleep RETRY_DELAY] ++ d2 ++
     [EvStderr (msg_get_data 1 e2); EvStderr msg_retry;
      EvSleep RETRY_DELAY] ++ d3 ++ [EvStderr (msg_get_data 2 e3)]), 3.
  split.
  { unfold get_data. change (seq 0 MAX_RETRIES) with (seq 0 2 ++ [2]).
    rewrite (get_data_loop_failed w mart dataset attributes filters 2 0 [2]
               st (after_failure 1 e2 s2)); [|unfold MAX_RETRIES; lia|exact Hfa2].
    cbn [get_data_loop]. rewrite H3. unfold bind. simpl. reflexivity. }
  split; [simpl; by rewrite Hd3, <- !app_assoc|].
  rewrite !stderr_lines_app, !count_lines_app, !sleeps_app,
    !count_queries_app, !count_connects_app, Hs1, Hf1, Hr1, Hs2, Hf2, Hr2,
    Hs3, Hf3, Hr3.
  destruct (handler_events (msg_get_data 0 e1) msg_retry RETRY_DELAY)
    as (-> & -> & _).
  destruct (handler_events (msg_get_data 1 e2) msg_retry RETRY_DELAY)
    as (-> & -> & _).
  destruct (handler_events (msg_get_data 2 e3) msg_retry RETRY_DELAY)
    as (_ & _ & -> & ->).
  repeat split; try done; try lia. eauto.
Qed.

(** X8.  The retry of [get_data] covers the connection: when no
    connection is cached and the host refuses the first one, the
    failure is logged twice (by [get_server] and by the retry loop), the
    call sleeps once, connects again, and returns the table of the query
    made on the second connection. *)
Theorem get_data_retry_reconnects (w : World) (mart dataset : string)
    (attributes : list string) (filters : gmap string string)
    (st : State) (e : string) (df : DataFrame) :
  server_cache st = [] ->
  connect w (clock st) DEFAULT_HOST = Raise e ->
  connect w (S (clock st)) DEFAULT_HOST = Ok tt ->
  remote_query w (S (S (clock st))) mart dataset attributes filters = Ok df ->
  exists st',
    get_data w mart dataset attributes filters st =
      (st', Ok (Some (normalize (os_linesep w) df))) /\
    trace st' =
      trace st ++
      [ EvConnect DEFAULT_HOST; EvStderr (msg_connect e);
        EvStderr (msg_get_data 0 e); EvStderr msg_retry; EvSleep RETRY_DELAY;
        EvConnect DEFAULT_HOST; EvQuery mart dataset attributes filters ] /\
    server_cache st' <> [].
Proof.
  intros Hc Hfail Hok Hq.
  assert (H1 : get_data_try w mart dataset attributes filters st =
               (fst (get_server w st), Raise e)).
  { unfold get_data_try, fetch_table, bind.
    by rewrite (get_server_fails w st e Hc Hfail). }
  rewrite (get_server_fails w st e Hc Hfail) in H1. simpl in H1.
  set (s1 := mkState (S (clock st))
               (trace st ++ [EvConnect DEFAULT_HOST; EvStderr (msg_connect e)])
               [] (translation_cache st)) in *.
  assert (Hfa : failed_attempts w mart dataset attributes filters 0 1 st =
                Some (after_failure 0 e s1)) by (simpl; by rewrite H1).
  assert (H2 : get_data_try w mart dataset attributes filters (after_failure 0 e s1) =
               (mkState (S (S (S (clock st))))
                  (trace (after_failure 0 e s1) ++
                   [EvConnect DEFAULT_HOST; EvQuery mart dataset attributes filters])
                  [(tt, mkServer DEFAULT_HOST (S (clock st)))]
                  (translation_cache st),
                Ok (normalize (os_linesep w) df))).
  { unfold get_data_try, fetch_table, bind.
    rewrite (get_server_connects w (after_failure 0 e s1) eq_refl Hok).
    unfold server_query, remote, ret. simpl. rewrite Hq.
    by rewrite <- !app_assoc. }
  eexists. split; [|split].
  - unfold get_data. change (seq 0 MAX_RETRIES) with (seq 0 1 ++ [1; 2]).
    rewrite (get_data_loop_failed w mart dataset attributes filters 1 0 [1; 2]
               st (after_failure 0 e s1)); [|unfold MAX_RETRIES; lia|exact Hfa].
    cbn [get_data_loop]. rewrite H2. reflexivity.
  - simpl. by rewrite <- !app_assoc.
  - done.
Qed.

Lemma get_data_retry_reconnects_witness :
  exists st',
    get_data (flaky_host 0) MART DATASET ["hgnc_symbol"; "ensembl_gene_id"] ∅
             initial_state =
      (st', Ok (Some (normalize newline gene_table))) /\
    count_connects (trace st') = 2 /\ sleeps (trace st') = [2].
Proof.
  destruct (get_data_retry_reconnects (flaky_host 0) MART DATASET
              ["hgnc_symbol"; "ensembl_gene_id"] ∅ initial_state
              "host unreachable" gene_table eq_refl eq_refl eq_refl eq_refl)
    as (st' & Hcall & Htrace & _).
  exists st'. split; [exact Hcall|]. rewrite Htrace. by split.
Defined.

(** ** The catalog listings, outcome by outcome *)

(** X3.  With a connection cached, [list_marts] and [list_datasets] make
    one remote listing and nothing else: a served table comes back as
    its text and nothing is logged; a failed listing (an unknown mart,
    say) comes back as the text [Error: <message>], with one diagnostic
    line that, for [list_datasets], names the mart.  The connection
    stays cached either way. *)
Theorem catalog_listing_outcome (w : World) (st : State) :
  server_cache st <> [] ->
  (forall df,
     remote_list_marts w (clock st) = Ok df ->
     exists st',
       list_marts w st = (st', Ok (normalize (os_linesep w) df)) /\
       trace st' = trace st ++ [EvListMarts] /\ server_cache st' <> []) /\
  (forall e,
     remote_list_marts w (clock st) = Raise e ->
     exists st',
       list_marts w st = (st', Ok (msg_error e)) /\
       trace st' = trace st ++ [EvListMarts; EvStderr (msg_list_marts e)] /\
       server_cache st' <> []) /\
  (forall mart df,
     remote_list_datasets w (clock st) mart = Ok df ->
     exists st',
       list_datasets w mart st = (st', Ok (normalize (os_linesep w) df)) /\
       trace st' = trace st ++ [EvListDatasets mart] /\ server_cache st' <> []) /\
  (forall mart e,
     remote_list_datasets w (clock st) mart = Raise e ->
     exists st',
       list_datasets w mart st = (st', Ok (msg_error e)) /\
       trace st' =
         trace st ++ [EvListDatasets mart; EvStderr (msg_list_datasets mart e)] /\
       server_cache st' <> []).
Proof.
  intros Hc.
  destruct (server_cache st) as [|[u srv] c] eqn:Hs; [done|].
  pose proof (get_server_cached w st u srv c Hs) as Hg.
  repeat split.
  - intros df Hdf. eexists.
    unfold list_marts, try_except, bind, server_list_marts, remote, ret.
    rewrite Hg. simpl. rewrite Hdf. by repeat split.
  - intros e He. eexists.
    unfold list_marts, try_except, bind, server_list_marts, remote, ret.
    rewrite Hg. simpl. rewrite He. simpl.
    repeat split; [by rewrite <- app_assoc|done].
  - intros mart df Hdf. eexists.
    unfold list_datasets, try_except, bind, server_list_datasets, remote, ret.
    rewrite Hg. simpl. rewrite Hdf. by repeat split.
  - intros mart e He. eexists.
    unfold list_datasets, try_except, bind, server_list_datasets, remote, ret.
    rewrite Hg. simpl. rewrite He. simpl.
    repeat split; [by rewrite <- app_assoc|done].
Qed.

Lemma catalog_listing_outcome_witness :
  let st1 := fst (list_marts empty_world initial_state) in
  exists st',
    list_datasets empty_world "NO_SUCH_MART" st1 =
      (st', Ok "Error: 'NO_SUCH_MART'") /\
    stderr_lines (trace st') =
      ["Error listing datasets for mart NO_SUCH_MART: 'NO_SUCH_MART'"].
Proof.
  intros st1.
  destruct (catalog_listing_outcome empty_world st1) as (_ & _ & _ & Hfail).
  - intros H. discriminate H.
  - destruct (Hfail "NO_SUCH_MART" "'NO_SUCH_MART'" eq_refl) as (st' & Hcall & Htr & _).
    exists st'. split; [exact Hcall|]. by rewrite Htr.
Defined.

Lemma index_of_None (label : string) (labels : list string) :
  index_of label labels = None <-> label ∉ labels.
Proof.
  induction labels as [|l ls IH]; simpl.
  - split; [intros _; apply not_elem_of_nil|done].
  - rewrite not_elem_of_cons. destruct (decide (label = l)) as [->|Hne].
    + split; [done|tauto].
    + destruct (index_of label ls); simpl; split; try done; try tauto.
      intros [_ H]. by apply IH in H.
Qed.

(** X5.  Both attribute listings select rows by the column [name]: when
    the table the remote service returns has no such column, the lookup
    fails with a key error whose text is the quoted label, and the fault
    reaches the caller. *)
Theorem attribute_listing_needs_name (w : World) (mart dataset : string)
    (st : State) (df : DataFrame) :
  connect w (clock st) DEFAULT_HOST = Ok tt ->
  remote_list_attributes w (S (clock st)) mart dataset = Ok df ->
  "name" ∉ columns df ->
  snd (list_common_attributes w mart dataset st) = Raise "'name'" /\
  snd (list_all_attributes w mart dataset st) = Raise "'name'".
Proof.
  intros Hc Hl Hname. apply index_of_None in Hname.
  unfold list_common_attributes, list_all_attributes, bind, new_server,
    server_list_attributes, remote, lift, drop_matching, getitem_column.
  simpl. rewrite Hc. simpl. rewrite Hl. simpl. by rewrite Hname.
Qed.

Lemma attribute_listing_needs_name_witness :
  snd (list_common_attributes nameless_world MART DATASET initial_state) =
    Raise "'name'".
Proof.
  destruct (attribute_listing_needs_name nameless_world MART DATASET
              initial_state gene_table eq_refl eq_refl) as [H _].
  - intros H. repeat (apply elem_of_cons in H as [H|H]; [discriminate H|]).
    by apply elem_of_nil in H.
  - exact H.
Defined.

(** X6.  The three listings without handler raise what the remote
    listing raises (an unknown mart or dataset, a network fault): the
    fault reaches the caller with its message, and is not turned into
    text. *)
Theorem listing_faults_reach_caller (w : World) (mart dataset : string)
    (st : State) (e : string) :
  connect w (clock st) DEFAULT_HOST = Ok tt ->
  (remote_list_attributes w (S (clock st)) mart dataset = Raise e ->
   snd (list_common_attributes w mart dataset st) = Raise e /\
   snd (list_all_attributes w mart dataset st) = Raise e) /\
  (remote_list_filters w (S (clock st)) mart dataset = Raise e ->
   snd (list_filters w mart dataset st) = Raise e).
Proof. apply own_listing_failure_raises. Qed.

Lemma listing_faults_reach_caller_witness :
  snd (list_filters empty_world "NO_SUCH_MART" DATASET initial_state) =
    Raise "'NO_SUCH_MART'" /\
  snd (list_all_attributes empty_world "NO_SUCH_MART" DATASET initial_state) =
    Raise "'NO_SUCH_MART'".
Proof.
  destruct (listing_faults_reach_caller empty_world "NO_SUCH_MART" DATASET
              initial_state "'NO_SUCH_MART'" eq_refl) as [Hattr Hfilt].
  split; [by apply Hfilt|by apply Hattr].
Defined.

(** ** More on [get_translation] *)

(** X11.  A remote answer with fewer than two columns makes the
    positional column access fail: [get_translation] returns the text of
    that index error, logs it, and the text is stored in the cache like
    any other return value. *)
Theorem translation_malformed_response (w : World)
    (mart dataset from_attr to_attr target : string)
    (st st1 : State) (df : DataFrame) :
  let k := (mart, dataset, from_attr, to_attr, target) in
  let e := "single positional indexer is out-of-bounds" in
  lru_get k (translation_cache st) = None ->
  fetch_table w mart dataset [from_attr; to_attr] ∅ st = (st1, Ok df) ->
  length (columns df) < 2 ->
  exists st2,
    get_translation w mart dataset from_attr to_attr target st =
      (st2, Ok (msg_error e)) /\
    trace st2 = trace st1 ++ [EvStderr (msg_translation e)] /\
    lru_get k (translation_cache st2) = Some (msg_error e).
Proof.
  intros k e Hmiss Hfetch Hcols.
  assert (Hbuild : build_mapping w mart dataset from_attr to_attr st =
                     (st1, Raise e)).
  { unfold build_mapping, bind, lift, ret, iloc_column. rewrite Hfetch.
    destruct (decide (0 < length (columns df))); [|done].
    destruct (decide (1 < length (columns df))); [lia|done]. }
  assert (Hbody : get_translation_body w k st =
            (fst (print_stderr (msg_translation e) st1), Ok (msg_error e))).
  { unfold k, get_translation_body, try_except, bind. by rewrite Hbuild. }
  unfold get_translation. fold k.
  rewrite (get_translation_key_miss w k st _ _ Hmiss Hbody).
  eexists. split; [reflexivity|]. split; [reflexivity|]. apply lru_get_head.
Qed.

Lemma translation_malformed_response_witness :
  exists st2,
    get_translation narrow_world MART DATASET "hgnc_symbol" "ensembl_gene_id"
                    "TP53" initial_state =
      (st2, Ok "Error: single positional indexer is out-of-bounds").
Proof.
  destruct (translation_malformed_response narrow_world MART DATASET
              "hgnc_symbol" "ensembl_gene_id" "TP53" initial_state _
              (mkDataFrame ["HGNC symbol"] [["TP53"]]) eq_refl eq_refl)
    as (st2 & Hcall & _).
  - simpl. lia.
  - by exists st2.
Defined.

Lemma foldl_insert_lookup_Some (pairs : list (string * string))
    (m : gmap string string) (x y : string) :
  foldl (fun d kv => <[kv.1 := kv.2]> d) m pairs !! x = Some y ->
  m !! x = Some y \/ (x, y) ∈ pairs.
Proof.
  revert m. induction pairs as [|[a b] pairs IH]; intros m; simpl; [auto|].
  intros H. apply IH in H as [H|H]; [|right; by apply elem_of_cons; right].
  destruct (decide (a = x)) as [->|Hne].
  - rewrite lookup_insert_eq in H. inversion H; subst.
    right. apply elem_of_cons. by left.
  - rewrite lookup_insert_ne in H by done. by left.
Qed.

Lemma elem_of_zip_columns (rs : list (list string)) (i j : nat) (x y : string) :
  (x, y) ∈ zip (map (cell i) rs) (map (cell j) rs) ->
  exists row, row ∈ rs /\ cell i row = x /\ cell j row = y.
Proof.
  induction rs as [|r rs IH]; simpl.
  - intros H. by apply elem_of_nil in H.
  - intros [H|H]%elem_of_cons.
    + inversion H; subst. exists r. split; [apply elem_of_cons; by left|done].
    + destruct (IH H) as (row & Hrow & Hx & Hy).
      exists row. split; [apply elem_of_cons; by right|done].
Qed.

(** X14.  A translation is never made up: when the two-column query
    succeeds, what [get_translation] returns is the not-found text or
    the second cell of a row of the answer whose first cell is the
    target. *)
Theorem translation_value_from_data (w : World)
    (mart dataset from_attr to_attr target : string)
    (st st1 st2 : State) (df : DataFrame) (v : string) :
  lru_get (mart, dataset, from_attr, to_attr, target) (translation_cache st) = None ->
  fetch_table w mart dataset [from_attr; to_attr] ∅ st = (st1, Ok df) ->
  2 <= length (columns df) ->
  get_translation w mart dataset from_attr to_attr target st = (st2, Ok v) ->
  v = msg_target target \/
  exists row, row ∈ rows df /\ cell 0 row = target /\ cell 1 row = v.
Proof.
  intros Hmiss Hfetch Hcols Hcall.
  set (k := (mart, dataset, from_attr, to_attr, target)) in *.
  set (pairs := zip (map (cell 0) (rows df)) (map (cell 1) (rows df))).
  assert (Hbuild : build_mapping w mart dataset from_attr to_attr st =
                     (st1, Ok (dict pairs))).
  { unfold build_mapping, bind, lift, ret, iloc_column. rewrite Hfetch.
    destruct (decide (0 < length (columns df))); [|lia].
    destruct (decide (1 < length (columns df))); [|lia]. reflexivity. }
  destruct (get_translation_body_returns w k st) as (sb & u & Hbody).
  unfold get_translation in Hcall. fold k in Hcall.
  rewrite (get_translation_key_miss w k st sb u Hmiss Hbody) in Hcall.
  inversion Hcall; subst u; clear Hcall.
  unfold k, get_translation_body, try_except, bind in Hbody.
  rewrite Hbuild in Hbody.
  destruct (dict pairs !! target) as [y|] eqn:Hy.
  - inversion Hbody; subst. right.
    apply foldl_insert_lookup_Some in Hy as [Hy|Hy]; [by rewrite lookup_empty in Hy|].
    by apply elem_of_zip_columns.
  - simpl in Hbody. inversion Hbody. by left.
Qed.

Lemma translation_value_from_data_witness :
  "ENSG00000012048" = msg_target "BRCA1" \/
  exists row, row ∈ rows gene_table /\ cell 0 row = "BRCA1" /\
              cell 1 row = "ENSG00000012048".
Proof.
  apply (translation_value_from_data steady_world MART DATASET "hgnc_symbol"
           "ensembl_gene_id" "BRCA1" initial_state
           (fst (fetch_table steady_world MART DATASET
                   ["hgnc_symbol"; "ensembl_gene_id"] ∅ initial_state))
           (fst (get_translation steady_world MART DATASET "hgnc_symbol"
                   "ensembl_gene_id" "BRCA1" initial_state))
           gene_table); [reflexivity|reflexivity|simpl; lia|reflexivity].
Defined.

(** ** The text on both platforms *)

(** X12.  For a table without carriage return in its column names and
    cells, the returned text does not depend on the platform: the line
    separator carriage return, line feed gives the very text the
    separator line feed gives. *)
Theorem normalize_platform_independent (df : DataFrame) :
  cr_free_table df = true ->
  normalize crlf df = normalize newline df.
Proof.
  intros [Hcols Hrows]%andb_true_iff. unfold normalize, to_csv.
  assert (Hall : forallb (forallb cr_free) (columns df :: rows df) = true)
    by (simpl; by rewrite Hcols, Hrows).
  rewrite (write_rows_normal crlf) by auto.
  by rewrite (write_rows_normal newline) by auto.
Qed.

Lemma normalize_platform_independent_witness :
  normalize crlf attribute_table = normalize newline attribute_table.
Proof. apply normalize_platform_independent. reflexivity. Defined.

(** ** The substring policy *)




(** ** Who sleeps *)

Lemma sleeps_snoc (tr : list event) (e : event) :
  (forall n, e <> EvSleep n) -> sleeps (tr ++ [e]) = sleeps tr.
Proof.
  intros He. rewrite sleeps_app.
  destruct e; simpl; try apply app_nil_r. by destruct (He seconds).
Qed.

Lemma slept_emit (l : list nat) (e : event) :
  (forall n, e <> EvSleep n) ->
  preserves (fun st => sleeps (trace st) = l) (emit e).
Proof. intros He st H. simpl. by rewrite sleeps_snoc. Qed.

Lemma slept_remote {A} (l : list nat) (e : event) (answer : nat -> result A) :
  (forall n, e <> EvSleep n) ->
  preserves (fun st => sleeps (trace st) = l) (remote e answer).
Proof. intros He st H. simpl. by rewrite sleeps_snoc. Qed.

Lemma slept_new_server (l : list nat) (w : World) (host : string) :
  preserves (fun st => sleeps (trace st) = l) (new_server w host).
Proof.
  intros st H. unfold new_server, remote. simpl.
  destruct (connect w (clock st) host); simpl; by rewrite sleeps_snoc.
Qed.

Lemma slept_get_server (l : list nat) (w : World) :
  preserves (fun st => sleeps (trace st) = l) (get_server w).
Proof.
  intros st H. destruct (get_server w st) as [st' r] eqn:Hg. simpl.
  destruct (get_server_trace w st st' r Hg) as (d & -> & Hev & _).
  rewrite sleeps_app, H. destruct Hev as [?|?|? ?]; simpl; apply app_nil_r.
Qed.

Ltac slept :=
  unfold print_stderr, server_list_marts, server_list_datasets,
    server_list_attributes, server_list_filters;
  repeat first
    [ apply preserves_try_except; [|intros ?]
    | apply preserves_bind; [|intros ?]
    | apply preserves_ret
    | apply preserves_lift
    | apply preserves_raise
    | apply slept_get_server
    | apply slept_new_server
    | apply slept_remote; intros ? ?; discriminate
    | apply slept_emit; intros ? ?; discriminate ].

(** X15.  Only [get_data] ever sleeps: a call of any other tool adds no
    sleep, whatever happens; in particular [get_translation] and the
    listings do not wait and try again after a failure. *)
Theorem only_get_data_sleeps (w : World) (t : tool) (st : State) :
  (forall mart dataset attributes filters,
     t <> GetData mart dataset attributes filters) ->
  sleeps (trace (fst (call w t st))) = sleeps (trace st).
Proof.
  intros Ht.
  enough (preserves (fun s => sleeps (trace s) = sleeps (trace st)) (call w t))
    as H by (by apply H).
  destruct t as [|mart|mart dataset|mart dataset|mart dataset
                 |mart dataset attributes filters
                 |mart dataset from_attr to_attr target]; simpl;
    [..|by destruct (Ht mart dataset attributes filters)|];
    apply preserves_some.
  - unfold list_marts. slept.
  - unfold list_datasets. slept.
  - unfold list_common_attributes. slept.
  - unfold list_all_attributes. slept.
  - unfold list_filters. slept.
  - unfold get_translation.
    apply preserves_get_translation_key; [intros c s Hs; exact Hs|].
    apply preserves_get_translation_body.
    + apply slept_get_server.
    + intros m d a f answer. apply slept_remote. intros n H. discriminate H.
    + intros line. apply slept_emit. intros n H. discriminate H.
Qed.

Lemma only_get_data_sleeps_witness :
  sleeps (trace (fst (call (flaky_world 9) (ask "TP53") initial_state))) = [].
Proof.
  apply (only_get_data_sleeps (flaky_world 9) (ask "TP53") initial_state).
  intros mart dataset attributes filters H. discriminate H.
Defined.
